(** * Startle-Response-Analysis: [analyze_max_g.py]

    A shallow embedding of [analyze_max_g_values] and [main], and the
    properties of the trial aggregation pipeline:

      read_csv -> tag filter -> numeric coercion -> groupby -> max -> mean.

    Conventions of the embedding.
    - A float64 is an exact rational or one of the IEEE special values
      (+inf, -inf, NaN); comparison, maximum and absolute value are those
      of float64, which never round. Sums and quotients of finite values
      are exact, where float64 rounds and overflows: what is stated of
      the two means below is their order and when they are NaN, which
      rounding does not change.
    - An int64 is an integer; [Series.abs()] wraps at the least int64.
    - A DataFrame is its column labels and its rows, each row carrying its
      index label and a record from column label to cell.
    - A Series indexed by group key (and the dict made from it) is a finite
      map from keys to floats.
    - Exceptions are values of an error monad; [print] and the report file
      are collected in an output trace. *)

From Stdlib Require Import QArith Qcanon Ascii String.
From stdpp Require Import base numbers list strings gmap fin_maps.

Local Open Scope Z_scope.

(** ** float64 with exact finite arithmetic *)

Inductive float : Type :=
  | Fin (q : Qc)
  | PInf
  | NInf
  | NaN.

Global Instance float_eq_dec : EqDecision float.
Proof. solve_decision. Defined.

Global Instance float_countable : Countable float.
Proof.
  refine (inj_countable'
    (λ f, match f with
          | Fin q => inl q
          | PInf => inr (inl ())
          | NInf => inr (inr (inl ()))
          | NaN => inr (inr (inr ()))
          end)
    (λ s, match s with
          | inl q => Fin q
          | inr (inl _) => PInf
          | inr (inr (inl _)) => NInf
          | inr (inr (inr _)) => NaN
          end) _).
  by intros [].
Defined.

Definition of_Z (z : Z) : float := Fin (Q2Qc (inject_Z z)).
Definition of_Q (q : Q) : float := Fin (Q2Qc q).

(** [x < y] on floats; every comparison with NaN is false. *)
Definition flt (x y : float) : bool :=
  match x, y with
  | NaN, _ | _, NaN => false
  | _, NInf => false
  | NInf, _ => true
  | PInf, _ => false
  | _, PInf => true
  | Fin a, Fin b => match (a ?= b)%Qc with Lt => true | _ => false end
  end.

(** [x <= y] on floats. *)
Definition fle (x y : float) : bool :=
  match x, y with
  | NaN, _ | _, NaN => false
  | NInf, _ => true
  | _, NInf => false
  | _, PInf => true
  | PInf, _ => false
  | Fin a, Fin b => match (a ?= b)%Qc with Gt => false | _ => true end
  end.

(** [x >= y], as Python writes it. *)
Definition fge (x y : float) : bool := fle y x.

Definition fabs (x : float) : float :=
  match x with
  | Fin q => Fin (if Qclt_le_dec q 0 then - q else q)%Qc
  | PInf | NInf => PInf
  | NaN => NaN
  end.

Definition fadd (x y : float) : float :=
  match x, y with
  | NaN, _ | _, NaN => NaN
  | PInf, NInf | NInf, PInf => NaN
  | PInf, _ | _, PInf => PInf
  | NInf, _ | _, NInf => NInf
  | Fin a, Fin b => Fin (a + b)%Qc
  end.

(** Division of a sum by a count; [0 / 0] is NaN. *)
Definition fdiv_count (s : float) (n : nat) : float :=
  match n with
  | O => NaN
  | S _ =>
      match s with
      | Fin q => Fin (q / Q2Qc (inject_Z (Z.of_nat n)))%Qc
      | other => other
      end
  end.

Definition notna (x : float) : bool :=
  match x with NaN => false | _ => true end.

Definition is_finite (x : float) : bool :=
  match x with Fin _ => true | _ => false end.

(** The running maximum of a group reduction: the new value replaces the
    current one when it is strictly greater. *)
Definition fmax (cur v : float) : float := if flt cur v then v else cur.

(** [Series.max()] of one group: NaN entries are skipped; an empty (or
    all-NaN) group has no maximum and yields NaN. *)
Definition series_max (l : list float) : float :=
  match filter (λ x, notna x = true) l with
  | [] => NaN
  | x :: l' => foldl fmax x l'
  end.

Definition fsum (l : list float) : float := foldr fadd (of_Z 0) l.

(** [Series.mean()]: NaN entries are skipped; the mean of no value is NaN. *)
Definition series_mean (l : list float) : float :=
  let l' := filter (λ x, notna x = true) l in
  fdiv_count (fsum l') (length l').

(** [m] is the maximum of [l]: it is one of its elements and no element
    exceeds it. *)
Definition is_maximum (m : float) (l : list float) : Prop :=
  m ∈ l ∧ ∀ x, x ∈ l → fle x m = true.

(** ** Cells, rows and frames *)

(** A cell of a DataFrame: a Python [int], [float] or [str]. A missing
    field is the float NaN, as [read_csv] leaves it. *)
Inductive value : Type :=
  | VInt (z : Z)
  | VFloat (f : float)
  | VStr (s : string).

Global Instance value_eq_dec : EqDecision value.
Proof. solve_decision. Defined.

Global Instance value_countable : Countable value.
Proof.
  refine (inj_countable'
    (λ v, match v with
          | VInt z => inl z
          | VFloat f => inr (inl f)
          | VStr s => inr (inr s)
          end)
    (λ s, match s with
          | inl z => VInt z
          | inr (inl f) => VFloat f
          | inr (inr s) => VStr s
          end) _).
  by intros [].
Defined.

(** A row is a record from column label to cell. *)
Abbreviation row := (gmap string value).

(** A group key: the cells of the [by] columns. Two keys are the same
    when their cells are; within a column as [read_csv] types it (all
    integers, all floats, or text with NaN for the empty fields) this is
    Python's equality. *)
Abbreviation key := (list value).

Definition cell (r : row) (c : string) : value :=
  default (VFloat NaN) (r !! c).

Record DataFrame : Type := mkFrame {
  columns : list string;
  rows : list (nat * row)
}.

(** The cell read as a number of a numeric column. *)
Definition float_of (v : value) : float :=
  match v with
  | VInt z => of_Z z
  | VFloat f => f
  | VStr _ => NaN
  end.

(** Python's [cell == n] for an integer literal [n]: a string is never
    equal to a number, and NaN is equal to nothing. *)
Definition eq_int (v : value) (n : Z) : bool :=
  match v with
  | VInt z => z =? n
  | VFloat (Fin q) =>
      match (q ?= Q2Qc (inject_Z n))%Qc with Eq => true | _ => false end
  | VFloat _ => false
  | VStr _ => false
  end.

(** [isna] / [notna] of a cell. *)
Definition value_notna (v : value) : bool :=
  match v with
  | VFloat f => notna f
  | _ => true
  end.

Definition is_int (v : value) : bool :=
  match v with
  | VInt _ => true
  | _ => false
  end.

(** ** int64 *)

Definition int64_min : Z := -9223372036854775808.

(** The absolute value of an int64, as numpy computes it: the negation
    of the least int64 overflows and wraps to itself. *)
Definition abs_int64 (z : Z) : Z :=
  if z =? int64_min then int64_min else Z.abs z.

(** [Series.abs()] on one entry of a numeric column. *)
Definition abs_cell (v : value) : value :=
  match v with
  | VInt z => VInt (abs_int64 z)
  | VFloat f => VFloat (fabs f)
  | VStr _ => VFloat NaN
  end.

(** ** Exceptions *)

Inductive exn : Type :=
  | FileNotFoundError
  | KeyError (c : string)
  | IndexError
  | ReadError (msg : string)
  | OSError (msg : string)
  | TypeError.

Inductive result (A : Type) : Type :=
  | Ok (a : A)
  | Raise (e : exn).
Arguments Ok {A} a.
Arguments Raise {A} e.

Global Instance result_ret : MRet result := λ A a, Ok a.
Global Instance result_bind : MBind result := λ A B f m,
  match m with
  | Ok a => f a
  | Raise e => Raise e
  end.

(** ** Frame operations *)

(** [df.iloc[:, 0]]: the label of the first column. *)
Definition iloc0 (df : DataFrame) : result string :=
  match columns df with
  | [] => Raise IndexError
  | c :: _ => Ok c
  end.

(** [df[c]] as a check that the column exists. *)
Definition getitem (df : DataFrame) (c : string) : result unit :=
  if decide (c ∈ columns df) then Ok () else Raise (KeyError c).

(** [df[mask]] for a row-wise mask: the rows keep their index labels and
    their order. *)
Definition where_ (p : row → bool) (df : DataFrame) : DataFrame :=
  {| columns := columns df;
     rows := filter (λ ir, p ir.2 = true) (rows df) |}.

(** The dtype of a numeric column is int64 when each of its cells is an
    integer. ([read_csv] types a column as a whole: in a column of
    integers every cell is a [VInt], and no other column holds one.) *)
Definition int64_column (c : string) (df : DataFrame) : bool :=
  forallb (λ ir : nat * row, is_int (cell ir.2 c)) (rows df).

(** [df[c] = s] for a Series [s] computed row by row: the column is
    replaced, or appended when new. *)
Definition setitem (c : string) (f : row → value) (df : DataFrame)
  : DataFrame :=
  {| columns := if decide (c ∈ columns df) then columns df
                else columns df ++ [c];
     rows := (λ ir, (ir.1, <[c := f ir.2]> ir.2)) <$> rows df |}.

(** The key of a row under [groupby(by)]; a row with a missing key cell
    has none ([dropna=True], the default). *)
Definition group_key (by_ : list string) (r : row) : option key :=
  let k := cell r <$> by_ in
  if forallb value_notna k then Some k else None.

(** The groups of a [groupby]: each key with its rows, in frame order. *)
Definition group_rows (by_ : list string) (rs : list (nat * row))
  : gmap key (list (nat * row)) :=
  foldr (λ ir m,
           match group_key by_ ir.2 with
           | None => m
           | Some k => partial_alter (λ o, Some (ir :: default [] o)) k m
           end) ∅ rs.

(** The rows of a frame whose key is [k], in frame order. *)
Definition members (by_ : list string) (k : key) (rs : list (nat * row))
  : list (nat * row) :=
  filter (λ ir, group_key by_ ir.2 = Some k) rs.

Definition groupby (by_ : list string) (df : DataFrame)
  : result (gmap key (list (nat * row))) :=
  match list_find (λ c, c ∉ columns df) by_ with
  | Some (_, c) => Raise (KeyError c)
  | None => Ok (group_rows by_ (rows df))
  end.

(** [grouped[c].max()]: one maximum per group. *)
Definition group_max (c : string) (g : gmap key (list (nat * row)))
  : gmap key float :=
  (λ l, series_max ((λ ir : nat * row, float_of (cell ir.2 c)) <$> l)) <$> g.

(** The values of a Series. *)
Definition values (s : gmap key float) : list float := (map_to_list s).*2.

(** ** The file system and [read_csv] *)

(** What [pd.read_csv(path, skiprows=1)] finds at a path. Skipping the
    metadata line, splitting the header and the fields and inferring the
    cell types is pandas' work: a file is represented by the table it
    parses to, or, when the reader rejects its text (an empty file, a
    ragged line, a wrong encoding), by the message of the exception. What
    is at the path but cannot be opened for reading (a directory, a file
    without read permission) is [Unopenable], with the message of the
    [OSError] that [open] raises. A path without a file is a path outside
    the map. *)
Inductive file : Type :=
  | Table (cols : list string) (data : list row)
  | Rejected (msg : string)
  | Unopenable (msg : string).

Abbreviation filesystem := (gmap string file).

(** The frame of a table, with the default index 0, 1, 2, ... *)
Definition frame (cols : list string) (data : list row) : DataFrame :=
  {| columns := cols; rows := imap (λ i r, (i, r)) data |}.

Definition read_csv (fs : filesystem) (path : string) : result DataFrame :=
  match fs !! path with
  | None => Raise FileNotFoundError
  | Some (Rejected msg) => Raise (ReadError msg)
  | Some (Unopenable msg) => Raise (OSError msg)
  | Some (Table cols data) => Ok (frame cols data)
  end.

(** ** The analysis *)

(** What [analyze_max_g_values] computes inside its [try]. *)
Record analysis : Type := mkAnalysis {
  max_values : gmap key float;
  mean_of_maxes : float;
  abs_max_values : gmap key float;
  mean_of_abs_maxes : float
}.

(** The returned tuple: four [None] on failure. *)
Definition returned : Type :=
  option (gmap key float) * option float
  * option (gmap key float) * option float.

(** What is printed and written, in order. [PrintReport] and
    [WriteReport] stand for the block of lines with the per-repetition
    maxima, the two means and the two group counts [len(max_values)] and
    [len(abs_max_values)]; [Uncaught] is an exception that leaves [main]. *)
Inductive output : Type :=
  | PrintNotFound (path : string)
  | PrintError (e : exn)
  | PrintReport (path : string) (a : analysis)
  | WriteReport (path : string)
      (max_values_dict : gmap key float) (mean_of_maxes : float)
      (abs_max_values_dict : gmap key float) (mean_of_abs_maxes : float)
  | PrintSaved (path : string)
  | Uncaught (e : exn).

Section Analysis.

(** The numeric reading of a text cell by [pd.to_numeric]: the number it
    denotes, or NaN when it denotes none ([errors='coerce']). The lexer
    is pandas' and is left open. *)
Variable str_to_float : string → float.

(** The number a cell is read as. *)
Definition to_numeric (v : value) : float :=
  match v with
  | VInt z => of_Z z
  | VFloat f => f
  | VStr s => str_to_float s
  end.

(** One entry of [pd.to_numeric(column, errors='coerce')]: a column of
    dtype int64 ([ints]) is returned as it is, and the entries of any
    other column become floats. Text is read as a float here. (A text
    column of which only integer literals are left is int64 in pandas as
    well; its entries are then the integers themselves, which is one of
    the readings [str_to_float] ranges over, and the one difference that
    remains is the absolute value of the least int64, which the
    properties of absolute values below leave out.) *)
Definition to_numeric_cell (ints : bool) (v : value) : value :=
  match v with
  | VInt z => if ints then VInt z else VFloat (of_Z z)
  | _ => VFloat (to_numeric v)
  end.

(** Lines 24 to 31: the rows tagged -900 with a numeric [ValueG], and
    the added column [AbsValueG]. *)
Definition valid_samples (df : DataFrame) : result DataFrame :=
  tag ← iloc0 df;
  let df := where_ (λ r, eq_int (cell r tag) (-900)) df in
  _ ← getitem df "ValueG";
  let ints := int64_column "ValueG" df in
  let df := setitem "ValueG" (λ r, to_numeric_cell ints (cell r "ValueG")) df in
  let df := where_ (λ r, value_notna (cell r "ValueG")) df in
  _ ← getitem df "ValueG";
  let df := setitem "AbsValueG" (λ r, abs_cell (cell r "ValueG")) df in
  Ok df.

(** [df.groupby(['Trial', 'TrialNo'])[c].max()]. *)
Definition groupby_max (df : DataFrame) (c : string)
  : result (gmap key float) :=
  g ← groupby ["Trial"; "TrialNo"] df;
  _ ← getitem df c;
  Ok (group_max c g).

(** Lines 20 to 42 on the frame that was read. *)
Definition analyze_frame (df : DataFrame) : result analysis :=
  df ← valid_samples df;
  max_values ← groupby_max df "ValueG";
  abs_max_values ← groupby_max df "AbsValueG";
  let mean_of_maxes := series_mean (values max_values) in
  let mean_of_abs_maxes := series_mean (values abs_max_values) in
  Ok (mkAnalysis max_values mean_of_maxes abs_max_values mean_of_abs_maxes).

Definition analyze_max_g_values (fs : filesystem) (csv_file_path : string)
  : returned * list output :=
  match df ← read_csv fs csv_file_path; analyze_frame df with
  | Ok a =>
      ((Some (max_values a), Some (mean_of_maxes a),
        Some (abs_max_values a), Some (mean_of_abs_maxes a)),
       [PrintReport csv_file_path a])
  | Raise FileNotFoundError =>
      ((None, None, None, None), [PrintNotFound csv_file_path])
  | Raise e =>
      ((None, None, None, None), [PrintError e])
  end.

(** [main], with the configured path as a parameter. The name of the
    report file is derived from [csv_file]; the trace records the
    analysed path. Only the first component is tested against [None];
    formatting a [None] mean with [:.4f] would raise [TypeError], which
    [main] does not catch. *)
Definition main (fs : filesystem) (csv_file : string) : list output :=
  let '((max_values_dict, mean_of_maxes, abs_max_values_dict,
         mean_of_abs_maxes), out) := analyze_max_g_values fs csv_file in
  match max_values_dict, mean_of_maxes, abs_max_values_dict,
        mean_of_abs_maxes with
  | Some d, Some m, Some ad, Some am =>
      out ++ [WriteReport csv_file d m ad am; PrintSaved csv_file]
  | Some _, _, _, _ => out ++ [Uncaught TypeError]
  | None, _, _, _ => out
  end.

(** The groups behind both reductions. *)
Definition trial_groups (df : DataFrame) : gmap key (list (nat * row)) :=
  group_rows ["Trial"; "TrialNo"] (rows df).

(** Lines 35 to 42 on the groups: the two reductions and their means. *)
Definition summarize (g : gmap key (list (nat * row))) : analysis :=
  let max_values := group_max "ValueG" g in
  let abs_max_values := group_max "AbsValueG" g in
  mkAnalysis max_values (series_mean (values max_values))
             abs_max_values (series_mean (values abs_max_values)).

(** The columns the analysis looks up by name. *)
Definition required (cols : list string) : Prop :=
  "ValueG"%string ∈ cols ∧ "Trial"%string ∈ cols ∧ "TrialNo"%string ∈ cols.

(** The test a row passes to be kept by lines 24 to 28: the tag is -900
    and [ValueG] coerces to a number other than NaN. *)
Definition valid (tag : string) (r : row) : bool :=
  eq_int (cell r tag) (-900) && notna (to_numeric (cell r "ValueG")).

(** The [AbsValueG] entry of a kept row, as a number. *)
Definition abs_numeric (ints : bool) (v : value) : float :=
  float_of (abs_cell (to_numeric_cell ints v)).

(** A kept row after the two column assignments. *)
Definition prepared (ints : bool) (r : row) : row :=
  <["AbsValueG"%string := abs_cell (to_numeric_cell ints (cell r "ValueG"))]>
    (<["ValueG"%string := to_numeric_cell ints (cell r "ValueG")]> r).

(** Whether the [ValueG] column of the rows tagged -900 is int64. *)
Definition int64_values (tag : string) (data : list row) : bool :=
  forallb (λ r, is_int (cell r "ValueG"))
          (filter (λ r, eq_int (cell r tag) (-900) = true) data).

(** The frame of valid samples in closed form. *)
Definition valid_frame (tag : string) (df : DataFrame) : DataFrame :=
  {| columns := if decide ("AbsValueG"%string ∈ columns df) then columns df
                else columns df ++ ["AbsValueG"%string];
     rows := (λ ir, (ir.1, prepared (int64_values tag (rows df).*2) ir.2))
               <$> filter (λ ir, valid tag ir.2 = true) (rows df) |}.

End Analysis.

(** ** Vocabulary of the properties *)

(** The exception of a failed column lookup: a frame without columns has no
    first column, and a name that is not a column label is a [KeyError]. *)
Definition lookup_error (cols : list string) (e : exn) : Prop :=
  e = IndexError
  ∨ (∃ c, e = KeyError c ∧ (c ∉ cols)
          ∧ (c ∈ ["ValueG"; "Trial"; "TrialNo"]%string)).

(** The line printed for a caught exception. *)
Definition error_line (path : string) (e : exn) : output :=
  match e with
  | FileNotFoundError => PrintNotFound path
  | _ => PrintError e
  end.

(** Row [i] of the file is a member of some group. *)
Definition contributes (g : gmap key (list (nat * row))) (i : nat) : Prop :=
  ∃ k l, g !! k = Some l ∧ i ∈ l.*1.

(** Neither [Trial] nor [TrialNo] is missing. *)
Definition has_key (r : row) : bool :=
  value_notna (cell r "Trial") && value_notna (cell r "TrialNo").

(** The pair a row is grouped under. *)
Definition trial_key (r : row) : key := [cell r "Trial"; cell r "TrialNo"].


(** The [ValueG] entries of a group, and its [AbsValueG] entries. *)
Definition group_values (c : string) (g : list (nat * row)) : list float :=
  (λ ir : nat * row, float_of (cell ir.2 c)) <$> g.

(** ** A lexer for plain decimal literals

    One instance of [str_to_float], used to run the pipeline on concrete
    tables: an optional sign, digits, an optional fraction, and the words
    [inf] and [-inf]; any other text is not a number. *)

Definition digit_of (a : ascii) : option Z :=
  let n := Z.of_nat (nat_of_ascii a) in
  if (48 <=? n) && (n <=? 57) then Some (n - 48) else None.

Fixpoint read_digits (s : string) (acc : Z) (n : nat) : Z * nat * string :=
  match s with
  | String a s' =>
      match digit_of a with
      | Some d => read_digits s' (10 * acc + d) (S n)
      | None => (acc, n, s)
      end
  | EmptyString => (acc, n, s)
  end.

Definition unsigned_decimal (s : string) : option Q :=
  let '(ip, n1, rest) := read_digits s 0 0 in
  match rest with
  | EmptyString => if n1 is O then None else Some (inject_Z ip)
  | String "."%char rest' =>
      let '(fp, n2, rest'') := read_digits rest' 0 0 in
      match rest'' with
      | EmptyString =>
          if (n1 + n2)%nat is O then None
          else Some (Qplus (inject_Z ip) (Qmake fp (Pos.pow 10 (Pos.of_nat n2))))
      | _ => None
      end
  | _ => None
  end.

Definition decimal (s : string) : float :=
  match s with
  | "inf"%string => PInf
  | "-inf"%string => NInf
  | String "-"%char s' =>
      match unsigned_decimal s' with
      | Some q => of_Q (- q)
      | None => NaN
      end
  | _ =>
      match unsigned_decimal s with
      | Some q => of_Q q
      | None => NaN
      end
  end.

Definition record (tag trial trial_no value_g : value) : row :=
  {[ "Tag"%string := tag; "Trial"%string := trial;
     "TrialNo"%string := trial_no; "ValueG"%string := value_g ]}.

Definition sample (tag : Z) (trial : string) (trial_no : Z) (value_g : value)
  : row :=
  record (VInt tag) (VStr trial) (VInt trial_no) value_g.

Definition header : list string :=
  ["Tag"; "Trial"; "TrialNo"; "ValueG"]%string.

(** The end-to-end scenario of the specification. *)
Definition scenario : list row :=
  [ sample (-900) "A" 1 (VStr "3.5");
    sample (-900) "A" 1 (VStr "-7.2");
    sample (-900) "A" 2 (VStr "4.0");
    sample (-130) "A" 2 (VStr "999");
    sample (-900) "B" 1 (VStr "not_a_number") ].

(** One repetition with the samples 3.0, -5.0 and 2.0. *)
Definition one_group : list row :=
  [ sample (-900) "A" 1 (VFloat (of_Z 3));
    sample (-900) "A" 1 (VFloat (of_Z (-5)));
    sample (-900) "A" 1 (VFloat (of_Z 2)) ].

(** Three repetitions with the maxima 2.0, 4.0 and 6.0. *)
Definition three_groups : list row :=
  [ sample (-900) "A" 1 (VFloat (of_Z 2));
    sample (-900) "A" 2 (VFloat (of_Z 4));
    sample (-900) "A" 2 (VFloat (of_Z 1));
    sample (-900) "A" 3 (VFloat (of_Z 6)) ].

(** A file without a row tagged -900. *)
Definition only_metadata : list row :=
  [ sample (-130) "A" 2 (VInt 999); sample (-120) "A" 2 (VInt 0) ].

(** A measurement row whose [ValueG] field reads [inf]. *)
Definition infinite_sample : list row :=
  [ sample (-900) "A" 1 (VFloat PInf) ].

(** A measurement row whose [Trial] field is empty. *)
Definition keyless_sample : list row :=
  [ record (VInt (-900)) (VFloat NaN) (VInt 1) (VFloat (of_Q (7 # 2))) ].


(** A measurement row whose [ValueG] is the least int64, in a column of
    integers. *)
Definition int64_minimum : list row :=
  [ sample (-900) "A" 1 (VInt int64_min) ].

(** The same column with a second sample in the same repetition. *)
Definition int64_minimum_and_five : list row :=
  [ sample (-900) "A" 1 (VInt int64_min);
    sample (-900) "A" 1 (VInt 5) ].

(** A table without the [ValueG] column. *)
Definition no_value_column : list string := ["Tag"; "Trial"; "TrialNo"]%string.

(** The path configured in [main]. *)
Definition csv_file : string :=
  "C:\Users\1kolb\Desktop\Startle-Response-Analysis\2022\Animal27_October24.CSV".


(** A file system that holds one table, at the configured path. *)
Definition disk (cols : list string) (data : list row) : filesystem :=
  {[ csv_file := Table cols data ]}.

(** The analysis of a table under [header], read with [decimal]. *)
Definition analysed (data : list row) : analysis :=
  summarize (trial_groups (valid_frame decimal "Tag" (frame header data))).

(** The scenario with its first two rows exchanged. *)
Definition scenario_reordered : list row :=
  [ sample (-900) "A" 1 (VStr "-7.2");
    sample (-900) "A" 1 (VStr "3.5");
    sample (-900) "A" 2 (VStr "4.0");
    sample (-130) "A" 2 (VStr "999");
    sample (-900) "B" 1 (VStr "not_a_number") ].


(** ** The name of the report file *)

(** [s.replace(old, new)] for a non-empty [old]: the occurrences of [old]
    are replaced from left to right, without overlap. [skip] counts the
    characters of a matched occurrence that are still to be passed over. *)
Fixpoint replace_from (skip : nat) (old new s : string) : string :=
  match s with
  | EmptyString => EmptyString
  | String c s' =>
      match skip with
      | S n => replace_from n old new s'
      | O =>
          if String.prefix old s
          then new +:+ replace_from (String.length old - 1) old new s'
          else String c (replace_from 0 old new s')
      end
  end.

Definition replace (old new s : string) : string := replace_from 0 old new s.

(** Line 92, on the result [base] of [os.path.basename(csv_file)]. *)
Definition output_filename (base : string) : string :=
  replace ".csv" "_analysis.txt" (replace ".CSV" "_analysis.txt" base).

(** [old in s]. *)
Fixpoint occurs (old s : string) : bool :=
  String.prefix old s
  || match s with
     | EmptyString => false
     | String _ s' => occurs old s'
     end.

(** No character of [s] is a dot. *)
Fixpoint dotless (s : string) : bool :=
  match s with
  | EmptyString => true
  | String c s' => negb (Ascii.eqb c ".") && dotless s'
  end.

(** ** The samples behind one group *)

(** The [ValueG] numbers of the rows of a table that are kept under key
    [k], in file order. *)
Definition grouped_values (lex : string → float) (tag : string) (k : key)
    (data : list row) : list float :=
  (λ r, to_numeric lex (cell r "ValueG"))
    <$> filter (λ r, valid lex tag r = true
                     ∧ group_key ["Trial"; "TrialNo"] r = Some k) data.

(** Their [AbsValueG] numbers, for a [ValueG] column that is int64 or
    not. *)
Definition grouped_abs_values (lex : string → float) (tag : string)
    (ints : bool) (k : key) (data : list row) : list float :=
  (λ r, abs_numeric lex ints (cell r "ValueG"))
    <$> filter (λ r, valid lex tag r = true
                     ∧ group_key ["Trial"; "TrialNo"] r = Some k) data.

(** Two rows read the same in the four columns the analysis looks at. *)
Definition same_inputs (tag : string) (r r' : row) : Prop :=
  cell r tag = cell r' tag
  ∧ cell r "ValueG" = cell r' "ValueG"
  ∧ cell r "Trial" = cell r' "Trial"
  ∧ cell r "TrialNo" = cell r' "TrialNo".

(** A row with a note and with an [AbsValueG] cell of the file's own. *)
Definition annotate (note : string) (stale : Z) (r : row) : row :=
  <["AbsValueG"%string := VInt stale]> (<["Note"%string := VStr note]> r).

Definition wide_header : list string :=
  ["Tag"; "Trial"; "TrialNo"; "ValueG"; "Note"; "AbsValueG"]%string.
(** * Properties *)

(** ** The order on floats *)

Section FloatOrder.

Local Open Scope Qc_scope.

Lemma fle_Fin (a b : Qc) : fle (Fin a) (Fin b) = true ↔ a ≤ b.
Proof.
  simpl. rewrite Qcle_alt. destruct (a ?= b); split; congruence.
Qed.

Lemma flt_Fin (a b : Qc) : flt (Fin a) (Fin b) = true ↔ a < b.
Proof.
  simpl. rewrite Qclt_alt. destruct (a ?= b); split; congruence.
Qed.

Lemma fle_notna_l x y : fle x y = true → notna x = true.
Proof. by destruct x, y. Qed.

Lemma fle_notna_r x y : fle x y = true → notna y = true.
Proof. by destruct x, y. Qed.

Lemma fle_refl x : notna x = true → fle x x = true.
Proof. destruct x; try done. intros _. apply fle_Fin, Qcle_refl. Qed.

Lemma fle_trans x y z : fle x y = true → fle y z = true → fle x z = true.
Proof.
  destruct x, y, z; try done.
  rewrite !fle_Fin. apply Qcle_trans.
Qed.

Lemma fle_antisym x y : fle x y = true → fle y x = true → x = y.
Proof.
  destruct x, y; try done.
  rewrite !fle_Fin. intros H1 H2. f_equal. by apply Qcle_antisym.
Qed.

(** Without NaN, [<] is the negation of the converse [<=]. *)
Lemma flt_false_fle x y :
  notna x = true → notna y = true → flt x y = false → fle y x = true.
Proof.
  destruct x, y; try done. intros _ _ H.
  apply fle_Fin, Qcnot_lt_le. intros Hlt. apply flt_Fin in Hlt. congruence.
Qed.

Lemma flt_fle x y : flt x y = true → fle x y = true.
Proof.
  destruct x, y; try done.
  rewrite flt_Fin, fle_Fin. apply Qclt_le_weak.
Qed.

Lemma fmax_notna cur v :
  notna cur = true → notna v = true → notna (fmax cur v) = true.
Proof. unfold fmax. by destruct (flt cur v). Qed.

Lemma fmax_choice cur v : fmax cur v = cur ∨ fmax cur v = v.
Proof. unfold fmax. destruct (flt cur v); auto. Qed.

Lemma fmax_ge_l cur v :
  notna cur = true → notna v = true → fle cur (fmax cur v) = true.
Proof.
  intros Hc Hv. unfold fmax. destruct (flt cur v) eqn:E.
  - by apply flt_fle.
  - by apply fle_refl.
Qed.

Lemma fmax_ge_r cur v :
  notna cur = true → notna v = true → fle v (fmax cur v) = true.
Proof.
  intros Hc Hv. unfold fmax. destruct (flt cur v) eqn:E.
  - by apply fle_refl.
  - by apply flt_false_fle.
Qed.

(** ** Absolute values *)

Lemma fabs_notna x : notna (fabs x) = notna x.
Proof. by destruct x. Qed.

Lemma fabs_nonneg x : notna x = true → fle (of_Z 0) (fabs x) = true.
Proof.
  destruct x; try done. intros _. apply fle_Fin.
  change (Q2Qc (inject_Z 0)) with 0.
  destruct (Qclt_le_dec q 0) as [H|H]; [|done].
  apply Qclt_le_weak in H. apply Qcopp_le_compat in H.
  by replace (- 0) with 0 in H by (by apply Qc_is_canon).
Qed.

Lemma fabs_ge x : notna x = true → fle x (fabs x) = true.
Proof.
  destruct x; try done. intros _. apply fle_Fin.
  destruct (Qclt_le_dec q 0) as [H|H]; [|apply Qcle_refl].
  apply Qclt_le_weak in H. eapply Qcle_trans; [exact H|].
  apply Qcopp_le_compat in H.
  by replace (- 0) with 0 in H by (by apply Qc_is_canon).
Qed.

End FloatOrder.

(** ** Integers as floats, and the absolute value of an int64 *)

Lemma Q2Qc_inject_Z_inj a b : Q2Qc (inject_Z a) = Q2Qc (inject_Z b) → a = b.
Proof.
  intros H. apply Q2Qc_eq_iff in H. unfold Qeq, inject_Z in H. simpl in H. lia.
Qed.

Lemma Q2Qc_inject_Z_le a b :
  (Q2Qc (inject_Z a) ≤ Q2Qc (inject_Z b))%Qc ↔ a ≤ b.
Proof.
  unfold Qcle. simpl. rewrite !Qred_correct.
  unfold Qle, inject_Z. simpl. lia.
Qed.

Lemma Q2Qc_inject_Z_lt a b :
  (Q2Qc (inject_Z a) < Q2Qc (inject_Z b))%Qc ↔ a < b.
Proof.
  unfold Qclt. simpl. rewrite !Qred_correct.
  unfold Qlt, inject_Z. simpl. lia.
Qed.

Lemma Q2Qc_inject_Z_opp a :
  (- Q2Qc (inject_Z a))%Qc = Q2Qc (inject_Z (- a)).
Proof.
  apply Qc_is_canon. simpl. rewrite !Qred_correct.
  unfold Qeq, Qopp, inject_Z. simpl. lia.
Qed.

Lemma of_Z_inj a b : of_Z a = of_Z b → a = b.
Proof.
  intros H. apply Q2Qc_inject_Z_inj.
  exact (f_equal (λ x, match x with Fin q => q | _ => 0%Qc end) H).
Qed.

Lemma fle_of_Z a b : fle (of_Z a) (of_Z b) = true ↔ a ≤ b.
Proof. unfold of_Z. by rewrite fle_Fin, Q2Qc_inject_Z_le. Qed.

Lemma fabs_of_Z z : fabs (of_Z z) = of_Z (Z.abs z).
Proof.
  unfold of_Z, fabs. f_equal.
  destruct (Qclt_le_dec (Q2Qc (inject_Z z)) 0) as [H|H].
  - change 0%Qc with (Q2Qc (inject_Z 0)) in H.
    apply (proj1 (Q2Qc_inject_Z_lt z 0)) in H.
    rewrite Q2Qc_inject_Z_opp. by rewrite Z.abs_neq by lia.
  - change 0%Qc with (Q2Qc (inject_Z 0)) in H.
    apply (proj1 (Q2Qc_inject_Z_le 0 z)) in H. by rewrite Z.abs_eq.
Qed.

Lemma abs_int64_other z : z ≠ int64_min → abs_int64 z = Z.abs z.
Proof.
  intros Hz. unfold abs_int64.
  by destruct (Z.eqb_spec z int64_min).
Qed.

Lemma abs_int64_nonneg z : 0 ≤ z → abs_int64 z = z.
Proof.
  intros Hz. rewrite abs_int64_other; [by apply Z.abs_eq|].
  unfold int64_min. lia.
Qed.

(** The absolute value of an entry is a number when the entry is, and is
    never [-inf]. *)
Lemma abs_cell_notna v :
  is_int v = true ∨ (∃ f, v = VFloat f ∧ notna f = true) →
  notna (float_of (abs_cell v)) = true ∧ float_of (abs_cell v) ≠ NInf.
Proof.
  intros [Hv|(f & -> & Hf)].
  - by destruct v.
  - simpl. by destruct f.
Qed.

(** ** Maxima of lists *)

Lemma is_maximum_unique m1 m2 l :
  is_maximum m1 l → is_maximum m2 l → m1 = m2.
Proof. intros [Hin1 Hle1] [Hin2 Hle2]. apply fle_antisym; auto. Qed.

Lemma is_maximum_perm m l l' : l ≡ₚ l' → is_maximum m l → is_maximum m l'.
Proof.
  intros Hp [Hin Hle]. split.
  - by rewrite <- Hp.
  - intros x Hx. apply Hle. by rewrite Hp.
Qed.

Lemma foldl_fmax_spec l : ∀ x,
  notna x = true → Forall (λ y, notna y = true) l →
  notna (foldl fmax x l) = true
  ∧ foldl fmax x l ∈ x :: l
  ∧ ∀ y, y ∈ x :: l → fle y (foldl fmax x l) = true.
Proof.
  induction l as [|v l IH]; intros x Hx Hl; simpl.
  - split; [done|]. split; [left|].
    intros y Hy. apply list_elem_of_singleton in Hy as ->. by apply fle_refl.
  - apply Forall_cons in Hl as [Hv Hl].
    destruct (IH (fmax x v) (fmax_notna _ _ Hx Hv) Hl) as (Hn & Hin & Hle).
    split; [done|]. split.
    + apply elem_of_cons in Hin as [Heq|Hin].
      * rewrite Heq. destruct (fmax_choice x v) as [->| ->];
          [left | right; left].
      * right; by right.
    + intros y Hy.
      assert (Htop : fle (fmax x v) (foldl fmax (fmax x v) l) = true)
        by (apply Hle; left).
      apply elem_of_cons in Hy as [->|Hy].
      { eapply fle_trans; [|exact Htop]. by apply fmax_ge_l. }
      apply elem_of_cons in Hy as [->|Hy].
      { eapply fle_trans; [|exact Htop]. by apply fmax_ge_r. }
      apply Hle. by right.
Qed.

Lemma filter_notna_id (l : list float) :
  Forall (λ y, notna y = true) l → filter (λ x, notna x = true) l = l.
Proof.
  induction 1 as [|x l Hx _ IH]; [done|].
  rewrite filter_cons_True by done. by rewrite IH.
Qed.

(** The maximum of a group with at least one entry and no NaN. *)
Lemma series_max_is_maximum l :
  l ≠ [] → Forall (λ y, notna y = true) l →
  is_maximum (series_max l) l ∧ notna (series_max l) = true.
Proof.
  intros Hne Hl. unfold series_max. rewrite filter_notna_id by done.
  destruct l as [|x l]; [done|].
  apply Forall_cons in Hl as [Hx Hl].
  destruct (foldl_fmax_spec l x Hx Hl) as (Hn & Hin & Hle).
  by repeat split.
Qed.

Lemma series_max_perm l l' : l ≡ₚ l' → series_max l = series_max l'.
Proof.
  intros Hp.
  assert (Hf : filter (λ x, notna x = true) l
               ≡ₚ filter (λ x, notna x = true) l') by by rewrite Hp.
  assert (Hall : ∀ k : list float,
            Forall (λ y, notna y = true) (filter (λ x, notna x = true) k)).
  { intros k. apply Forall_forall. intros y Hy.
    by apply list_elem_of_filter in Hy as [? _]. }
  assert (Hsame : ∀ k : list float,
            series_max (filter (λ x, notna x = true) k) = series_max k).
  { intros k. unfold series_max. by rewrite (filter_notna_id _ (Hall k)). }
  rewrite <- (Hsame l), <- (Hsame l').
  destruct (filter (λ x, notna x = true) l) as [|x k] eqn:E.
  { apply Permutation_nil_l in Hf. by rewrite Hf. }
  assert (Hne' : filter (λ x, notna x = true) l' ≠ []).
  { intros E'. rewrite E' in Hf. by apply Permutation_nil_r in Hf. }
  destruct (series_max_is_maximum (x :: k)) as [Hm _]; [done|  |].
  { rewrite <- E. apply Hall. }
  destruct (series_max_is_maximum _ Hne' (Hall l')) as [Hm' _].
  eapply is_maximum_unique; [|exact Hm'].
  by eapply is_maximum_perm.
Qed.

(** ** Sums and means *)

(** Without NaN, the mean is the sum divided by the length. *)
Lemma series_mean_notna l :
  Forall (λ y, notna y = true) l →
  series_mean l = fdiv_count (fsum l) (length l).
Proof. intros Hl. unfold series_mean. by rewrite filter_notna_id. Qed.

(** ** Groups *)

Lemma filter_fmap {A B} (f : A → B) (P : B → Prop) `{!∀ y, Decision (P y)}
    (l : list A) :
  filter P (f <$> l) = f <$> filter (λ x, P (f x)) l.
Proof.
  induction l as [|x l IH]; [done|].
  rewrite fmap_cons, !filter_cons. by destruct (decide (P (f x))); rewrite IH.
Qed.

(** A group is the list of the rows that carry its key, and exists when
    that list is not empty. *)
Lemma group_rows_lookup by_ rs k :
  group_rows by_ rs !! k =
    match members by_ k rs with
    | [] => None
    | g => Some g
    end.
Proof.
  unfold members. induction rs as [|ir rs IH]; [done|].
  simpl. rewrite filter_cons.
  destruct (group_key by_ ir.2) as [k'|] eqn:Ek.
  - rewrite lookup_partial_alter. destruct (decide (k' = k)) as [->|Hne].
    + rewrite decide_True by done. rewrite IH.
      by destruct (filter _ rs).
    + rewrite decide_False by congruence. by rewrite IH.
  - rewrite decide_False by done. by rewrite IH.
Qed.

Lemma group_rows_Some by_ rs k g :
  group_rows by_ rs !! k = Some g ↔ g = members by_ k rs ∧ g ≠ [].
Proof.
  rewrite group_rows_lookup. destruct (members by_ k rs) as [|x l] eqn:E.
  - split; [done|]. by intros [-> ?].
  - split; [by intros [= <-]|]. by intros [-> _].
Qed.

Lemma group_rows_member by_ rs k g ir :
  group_rows by_ rs !! k = Some g →
  ir ∈ g ↔ ir ∈ rs ∧ group_key by_ ir.2 = Some k.
Proof.
  intros [-> _]%group_rows_Some. unfold members.
  rewrite list_elem_of_filter. tauto.
Qed.

Lemma group_rows_empty by_ rs :
  group_rows by_ rs = ∅ ↔ ∀ ir, ir ∈ rs → group_key by_ ir.2 = None.
Proof.
  rewrite map_empty. split.
  - intros H ir Hin. destruct (group_key by_ ir.2) as [k|] eqn:Ek; [|done].
    specialize (H k). rewrite group_rows_lookup in H.
    assert (Hm : ir ∈ members by_ k rs) by by apply list_elem_of_filter.
    destruct (members by_ k rs); [by apply not_elem_of_nil in Hm | done].
  - intros H k. rewrite group_rows_lookup.
    destruct (members by_ k rs) as [|ir g] eqn:E; [done|].
    assert (Hm : ir ∈ members by_ k rs) by (rewrite E; left).
    apply list_elem_of_filter in Hm as [Hk Hin].
    rewrite (H ir Hin) in Hk. done.
Qed.

(** The groups depend on the frame only through its rows, and a
    reordering of the rows reorders each group. *)
Lemma members_perm by_ k rs rs' :
  rs ≡ₚ rs' → members by_ k rs ≡ₚ members by_ k rs'.
Proof. intros Hp. unfold members. by rewrite Hp. Qed.

Lemma group_max_lookup c by_ rs k :
  group_max c (group_rows by_ rs) !! k =
    match members by_ k rs with
    | [] => None
    | g => Some (series_max ((λ ir : nat * row, float_of (cell ir.2 c)) <$> g))
    end.
Proof.
  unfold group_max. rewrite lookup_fmap, group_rows_lookup.
  by destruct (members by_ k rs).
Qed.

(** The reduction sees the records only, not their index labels or order. *)
Lemma group_max_perm c by_ rs rs' :
  rs.*2 ≡ₚ rs'.*2 →
  group_max c (group_rows by_ rs) = group_max c (group_rows by_ rs').
Proof.
  intros Hp. apply map_eq. intros k. rewrite !group_max_lookup.
  assert (Hv : ∀ l : list (nat * row),
    (λ ir : nat * row, float_of (cell ir.2 c)) <$> members by_ k l
    = (λ r : row, float_of (cell r c))
        <$> filter (λ r : row, group_key by_ r = Some k) (l.*2)).
  { intros l. unfold members. rewrite (filter_fmap snd).
    rewrite <- list_fmap_compose. done. }
  assert (Hq : (λ ir : nat * row, float_of (cell ir.2 c)) <$> members by_ k rs
            ≡ₚ (λ ir : nat * row, float_of (cell ir.2 c)) <$> members by_ k rs').
  { rewrite !Hv. by rewrite Hp. }
  destruct (members by_ k rs) as [|x g] eqn:E,
           (members by_ k rs') as [|x' g'] eqn:E'.
  - done.
  - by apply Permutation_nil_l in Hq.
  - by apply Permutation_nil_r in Hq.
  - f_equal. by apply series_max_perm.
Qed.


(** ** Monotonicity of sums and means *)

Section FloatSums.

Local Open Scope Qc_scope.










(** A sum without NaN and without [-inf] is neither. *)
Lemma fsum_no_neg_inf l :
  Forall (λ x, notna x = true ∧ x ≠ NInf) l →
  notna (fsum l) = true ∧ fsum l ≠ NInf.
Proof.
  induction 1 as [|x l [Hx Hx'] _ [IH IH']]; [done|].
  change (fsum (x :: l)) with (fadd x (fsum l)).
  by destruct x, (fsum l).
Qed.

Lemma fdiv_count_notna_S s n :
  notna s = true → notna (fdiv_count s (S n)) = true.
Proof. by destruct s. Qed.

End FloatSums.
(** ** The valid samples *)

Section ValidSamples.

Variable lex : string → float.

Lemma cell_insert_eq (r : row) c v : cell (<[c := v]> r) c = v.
Proof. unfold cell. by rewrite lookup_insert_eq. Qed.

Lemma cell_insert_ne (r : row) c c' v :
  c ≠ c' → cell (<[c := v]> r) c' = cell r c'.
Proof. intros. unfold cell. by rewrite lookup_insert_ne. Qed.

(** The number in a [ValueG] entry after [to_numeric] is the number the
    cell is read as, whatever the dtype of the column. *)
Lemma float_of_to_numeric_cell ints v :
  float_of (to_numeric_cell lex ints v) = to_numeric lex v.
Proof. by destruct v, ints. Qed.

Lemma value_notna_to_numeric_cell ints v :
  value_notna (to_numeric_cell lex ints v) = notna (to_numeric lex v).
Proof. by destruct v, ints. Qed.

(** Apart from the least int64 in an int64 column, the [AbsValueG] number
    is the absolute value of the [ValueG] number. *)
Lemma abs_numeric_fabs ints v :
  to_numeric lex v ≠ of_Z int64_min →
  abs_numeric lex ints v = fabs (to_numeric lex v).
Proof.
  intros Hv. unfold abs_numeric. destruct v as [z|f|s]; try done.
  destruct ints; [|done].
  change (of_Z (abs_int64 z) = fabs (of_Z z)).
  rewrite fabs_of_Z, abs_int64_other; [done|].
  intros ->. by apply Hv.
Qed.

Lemma abs_numeric_notna ints v :
  notna (to_numeric lex v) = true →
  notna (abs_numeric lex ints v) = true ∧ abs_numeric lex ints v ≠ NInf.
Proof.
  intros Hv. unfold abs_numeric. apply abs_cell_notna.
  destruct v as [z|f|s], ints; simpl in *; eauto.
Qed.

Lemma fabs_of_nonneg x : fle (of_Z 0) x = true → fabs x = x.
Proof.
  destruct x as [q| | |]; try done. intros Hq%fle_Fin. simpl. f_equal.
  destruct (Qclt_le_dec q 0) as [Hneg|]; [|done].
  exfalso. by apply (Qclt_not_le _ _ Hneg).
Qed.

(** An entry that is not negative is its own absolute value. *)
Lemma abs_numeric_of_nonneg ints v :
  fle (of_Z 0) (to_numeric lex v) = true →
  abs_numeric lex ints v = to_numeric lex v.
Proof.
  intros Hv. unfold abs_numeric. destruct v as [z|f|s].
  - destruct ints.
    + change (of_Z (abs_int64 z) = of_Z z).
      apply (proj1 (fle_of_Z 0 z)) in Hv. by rewrite abs_int64_nonneg.
    + by apply fabs_of_nonneg.
  - by apply fabs_of_nonneg.
  - by apply fabs_of_nonneg.
Qed.

Lemma prepared_ValueG ints r :
  cell (prepared lex ints r) "ValueG"
  = to_numeric_cell lex ints (cell r "ValueG").
Proof.
  unfold prepared. rewrite cell_insert_ne by done. apply cell_insert_eq.
Qed.

Lemma prepared_ValueG_numeric ints r :
  float_of (cell (prepared lex ints r) "ValueG")
  = to_numeric lex (cell r "ValueG").
Proof. by rewrite prepared_ValueG, float_of_to_numeric_cell. Qed.

Lemma prepared_AbsValueG ints r :
  float_of (cell (prepared lex ints r) "AbsValueG")
  = abs_numeric lex ints (cell r "ValueG").
Proof. unfold prepared. by rewrite cell_insert_eq. Qed.

Lemma prepared_key ints r :
  group_key ["Trial"; "TrialNo"] (prepared lex ints r)
  = group_key ["Trial"; "TrialNo"] r.
Proof.
  unfold group_key, prepared. simpl.
  by rewrite !cell_insert_ne by done.
Qed.

Lemma forallb_fmap {A B} (f : A → B) (p : B → bool) (l : list A) :
  forallb p (f <$> l) = forallb (λ x, p (f x)) l.
Proof.
  induction l as [|x l IH]; [done|].
  rewrite fmap_cons. cbn [forallb]. by rewrite IH.
Qed.

Lemma forallb_perm {A} (p : A → bool) (l l' : list A) :
  l ≡ₚ l' → forallb p l = forallb p l'.
Proof.
  induction 1 as [|x l l' _ IH|x y l|l1 l2 l3 _ IH12 _ IH23]; simpl.
  - done.
  - by rewrite IH.
  - by destruct (p x), (p y).
  - by rewrite IH12.
Qed.

Lemma forallb_app_same {A} (p : A → bool) (l : list A) :
  forallb p (l ++ l) = forallb p l.
Proof. rewrite forallb_app. by destruct (forallb p l). Qed.

(** The dtype that line 27 finds is that of the rows tagged -900. *)
Lemma int64_column_tagged tag df :
  int64_column "ValueG" (where_ (λ r, eq_int (cell r tag) (-900)) df)
  = int64_values tag (rows df).*2.
Proof.
  unfold int64_column, int64_values, where_. simpl.
  rewrite (filter_fmap snd). symmetry.
  apply (forallb_fmap snd (λ r : row, is_int (cell r "ValueG"))).
Qed.

Lemma int64_values_perm tag data data' :
  data ≡ₚ data' → int64_values tag data = int64_values tag data'.
Proof. intros Hp. unfold int64_values. apply forallb_perm. by rewrite Hp. Qed.

Lemma int64_values_app_same tag data :
  int64_values tag (data ++ data) = int64_values tag data.
Proof. unfold int64_values. by rewrite filter_app, forallb_app_same. Qed.

(** Lines 24 to 31 fail only on a frame without columns or without
    [ValueG]; otherwise they keep the valid rows and prepare them. *)
Lemma valid_samples_eq df :
  valid_samples lex df =
    match columns df with
    | [] => Raise IndexError
    | tag :: _ =>
        if decide ("ValueG"%string ∈ columns df)
        then Ok (valid_frame lex tag df)
        else Raise (KeyError "ValueG")
    end.
Proof.
  unfold valid_samples, iloc0.
  destruct df as [cols rs]. simpl. destruct cols as [|tag cols]; [done|].
  simpl. unfold getitem. simpl.
  destruct (decide ("ValueG"%string ∈ tag :: cols)) as [Hin|Hnin]; [|done].
  simpl. rewrite decide_True by done. simpl. f_equal.
  rewrite (int64_column_tagged tag (mkFrame (tag :: cols) rs)).
  unfold valid_frame, setitem, where_. simpl. f_equal.
  { by rewrite (decide_True (P := "ValueG"%string ∈ tag :: cols)). }
  rewrite filter_fmap. simpl. rewrite <- list_fmap_compose.
  rewrite list_filter_filter.
  rewrite (list_filter_iff _ (λ ir : nat * row, valid lex tag ir.2 = true)).
  2:{ intros [i r]. simpl. rewrite cell_insert_eq.
      rewrite value_notna_to_numeric_cell. unfold valid. simpl.
      rewrite andb_true_iff. tauto. }
  apply list_fmap_ext. intros i [j r] _. simpl. unfold prepared.
  by rewrite cell_insert_eq.
Qed.

Lemma valid_frame_columns tag df c :
  c ∈ columns (valid_frame lex tag df)
  ↔ c ∈ columns df ∨ c = "AbsValueG"%string.
Proof.
  unfold valid_frame. simpl. case_decide as H.
  - split; [auto|]. by intros [?| ->].
  - rewrite elem_of_app, list_elem_of_singleton. tauto.
Qed.

Lemma groupby_max_eq df c :
  c ∈ columns df →
  groupby_max df c =
    if decide ("Trial"%string ∈ columns df) then
      if decide ("TrialNo"%string ∈ columns df) then
        Ok (group_max c (trial_groups df))
      else Raise (KeyError "TrialNo")
    else Raise (KeyError "Trial").
Proof.
  intros Hc. unfold groupby_max, groupby, getitem. simpl.
  rewrite (decide_True (P := c ∈ columns df)) by done.
  destruct (decide ("Trial"%string ∈ columns df)) as [Ht|Ht].
  2:{ by rewrite (decide_True (P := "Trial"%string ∉ columns df)). }
  rewrite (decide_False (P := "Trial"%string ∉ columns df)) by auto.
  destruct (decide ("TrialNo"%string ∈ columns df)) as [Hn|Hn].
  2:{ by rewrite (decide_True (P := "TrialNo"%string ∉ columns df)). }
  by rewrite (decide_False (P := "TrialNo"%string ∉ columns df)) by auto.
Qed.

(** The analysis of a frame in closed form: the exception of the first
    failing lookup, or the summary of the groups of the valid samples. *)
Lemma analyze_frame_eq df :
  analyze_frame lex df =
    match columns df with
    | [] => Raise IndexError
    | tag :: _ =>
        if decide ("ValueG"%string ∈ columns df) then
          if decide ("Trial"%string ∈ columns df) then
            if decide ("TrialNo"%string ∈ columns df) then
              Ok (summarize (trial_groups (valid_frame lex tag df)))
            else Raise (KeyError "TrialNo")
          else Raise (KeyError "Trial")
        else Raise (KeyError "ValueG")
    end.
Proof.
  unfold analyze_frame. rewrite valid_samples_eq.
  destruct (columns df) as [|tag cols] eqn:Ec; [done|].
  destruct (decide ("ValueG"%string ∈ tag :: cols)) as [Hv|Hv]; [|done].
  assert (Hc : ∀ c, c ≠ "AbsValueG"%string →
            c ∈ columns (valid_frame lex tag df) ↔ c ∈ tag :: cols).
  { intros c Hne. rewrite valid_frame_columns, Ec. tauto. }
  unfold mbind at 1. unfold result_bind at 1.
  rewrite !groupby_max_eq
    by (rewrite valid_frame_columns, Ec; auto).
  destruct (decide ("Trial"%string ∈ columns (valid_frame lex tag df)))
    as [Ht|Ht]; rewrite Hc in Ht by done;
    [rewrite (decide_True (P := "Trial"%string ∈ tag :: cols)) by done
    |by rewrite (decide_False (P := "Trial"%string ∈ tag :: cols))].
  destruct (decide ("TrialNo"%string ∈ columns (valid_frame lex tag df)))
    as [Hn|Hn]; rewrite Hc in Hn by done;
    [rewrite (decide_True (P := "TrialNo"%string ∈ tag :: cols)) by done
    |by rewrite (decide_False (P := "TrialNo"%string ∈ tag :: cols))].
  done.
Qed.

Lemma analyze_frame_Ok df a :
  analyze_frame lex df = Ok a →
  ∃ tag, head (columns df) = Some tag ∧ required (columns df)
         ∧ a = summarize (trial_groups (valid_frame lex tag df)).
Proof.
  rewrite analyze_frame_eq. unfold required.
  destruct (columns df) as [|tag cols]; [done|].
  repeat case_decide; try done. intros [= <-]. by exists tag.
Qed.

Lemma analyze_frame_required tag df :
  head (columns df) = Some tag → required (columns df) →
  analyze_frame lex df = Ok (summarize (trial_groups (valid_frame lex tag df))).
Proof.
  rewrite analyze_frame_eq. intros Hh (Hv & Ht & Hn).
  destruct (columns df) as [|tag' cols]; [done|].
  injection Hh as ->. by rewrite !decide_True.
Qed.

End ValidSamples.

(** ** The groups of the valid samples *)

Section TrialGroups.

Variable lex : string → float.

Lemma group_key_trial r k :
  group_key ["Trial"; "TrialNo"] r = Some k
  ↔ has_key r = true ∧ k = trial_key r.
Proof.
  unfold group_key, has_key, trial_key. simpl. rewrite andb_true_r.
  destruct (value_notna (cell r "Trial") && value_notna (cell r "TrialNo")).
  - split; [by intros [= <-]|by intros [_ ->]].
  - split; [done|by intros [? _]].
Qed.

Lemma frame_rows_elem cols data i r :
  (i, r) ∈ rows (frame cols data) ↔ data !! i = Some r.
Proof.
  unfold frame. simpl. rewrite elem_of_lookup_imap. split.
  - intros (j & r' & [= -> ->] & H). done.
  - intros H. by exists i, r.
Qed.

Lemma frame_rows_snd cols data : (rows (frame cols data)).*2 = data.
Proof.
  unfold frame. simpl. rewrite fmap_imap.
  induction data as [|r data IH] using rev_ind; [done|].
  rewrite imap_app, IH. simpl. done.
Qed.

Lemma frame_rows_NoDup cols data : NoDup (rows (frame cols data)).*1.
Proof.
  unfold frame. simpl. rewrite fmap_imap.
  apply NoDup_alt. intros i j n. rewrite !list_lookup_imap.
  destruct (data !! i) eqn:Ei, (data !! j) eqn:Ej; simpl; congruence.
Qed.

Lemma valid_frame_rows_snd tag df :
  (rows (valid_frame lex tag df)).*2
  = prepared lex (int64_values tag (rows df).*2)
      <$> filter (λ r, valid lex tag r = true) (rows df).*2.
Proof.
  unfold valid_frame. simpl. rewrite <- list_fmap_compose.
  rewrite (filter_fmap snd), <- list_fmap_compose. done.
Qed.

(** A member of a group is a prepared valid row of the frame under the
    group's key, with its own index label. *)
Lemma trial_groups_member tag df k g i r' :
  trial_groups (valid_frame lex tag df) !! k = Some g →
  (i, r') ∈ g ↔
    ∃ r, (i, r) ∈ rows df
         ∧ r' = prepared lex (int64_values tag (rows df).*2) r
         ∧ valid lex tag r = true ∧ has_key r = true ∧ k = trial_key r.
Proof.
  intros Hg. unfold trial_groups in Hg.
  rewrite (group_rows_member _ _ _ _ _ Hg). simpl.
  unfold valid_frame. simpl. rewrite list_elem_of_fmap. split.
  - intros [([j r] & [= -> ->] & Hin) Hk].
    apply list_elem_of_filter in Hin as [Hv Hin]. simpl in *.
    rewrite prepared_key in Hk. apply group_key_trial in Hk as [? ?].
    by exists r.
  - intros (r & Hin & -> & Hv & Hh & ->). split.
    + exists (i, r). split; [done|]. by apply list_elem_of_filter.
    + rewrite prepared_key. by apply group_key_trial.
Qed.

(** The group of a valid row with a key exists. *)
Lemma trial_groups_of_row tag df i r :
  (i, r) ∈ rows df → valid lex tag r = true → has_key r = true →
  ∃ g, trial_groups (valid_frame lex tag df) !! trial_key r = Some g
       ∧ (i, prepared lex (int64_values tag (rows df).*2) r) ∈ g.
Proof.
  intros Hin Hv Hh.
  assert (Hm : (i, prepared lex (int64_values tag (rows df).*2) r)
    ∈ members ["Trial"; "TrialNo"]%string (trial_key r)
        (rows (valid_frame lex tag df))).
  { apply list_elem_of_filter. simpl. split.
    - rewrite prepared_key. by apply group_key_trial.
    - unfold valid_frame. simpl. apply list_elem_of_fmap.
      exists (i, r). split; [done|]. by apply list_elem_of_filter. }
  unfold trial_groups. rewrite group_rows_lookup.
  destruct (members _ _ _) as [|x g] eqn:E.
  - by apply not_elem_of_nil in Hm.
  - by exists (x :: g).
Qed.

(** The entries a reduction sees are never NaN, and an [AbsValueG] entry
    is never [-inf]; in a group without the least int64 the [AbsValueG]
    entries are the absolute values of the [ValueG] entries. *)
Lemma trial_groups_values tag df k g :
  trial_groups (valid_frame lex tag df) !! k = Some g →
  g ≠ []
  ∧ Forall (λ x, notna x = true) (group_values "ValueG" g)
  ∧ Forall (λ x, notna x = true ∧ x ≠ NInf) (group_values "AbsValueG" g)
  ∧ (of_Z int64_min ∉ group_values "ValueG" g →
     group_values "AbsValueG" g = fabs <$> group_values "ValueG" g).
Proof.
  intros Hg.
  assert (Hrow : ∀ i r', (i, r') ∈ g →
    ∃ r, float_of (cell r' "ValueG") = to_numeric lex (cell r "ValueG")
         ∧ float_of (cell r' "AbsValueG")
           = abs_numeric lex (int64_values tag (rows df).*2)
                         (cell r "ValueG")
         ∧ notna (to_numeric lex (cell r "ValueG")) = true).
  { intros i r' Hin.
    apply (trial_groups_member _ _ _ _ _ _ Hg) in Hin
      as (r & _ & -> & Hv & _). exists r.
    rewrite prepared_ValueG_numeric, prepared_AbsValueG.
    unfold valid in Hv. by apply andb_true_iff in Hv as [_ ?]. }
  split_and!.
  - by apply group_rows_Some in Hg as [_ ?].
  - apply Forall_forall. intros x Hx. unfold group_values in Hx.
    apply list_elem_of_fmap in Hx as ([i r'] & -> & Hin).
    destruct (Hrow i r' Hin) as (r & Hv & _ & Hn). simpl. by rewrite Hv.
  - apply Forall_forall. intros x Hx. unfold group_values in Hx.
    apply list_elem_of_fmap in Hx as ([i r'] & -> & Hin).
    destruct (Hrow i r' Hin) as (r & _ & Ha & Hn). simpl. rewrite Ha.
    by apply abs_numeric_notna.
  - intros Hmin. unfold group_values. rewrite <- list_fmap_compose.
    apply list_fmap_ext. intros j [i r'] Hj. simpl.
    assert (Hin : (i, r') ∈ g) by (apply list_elem_of_lookup; eauto).
    destruct (Hrow i r' Hin) as (r & Hv & Ha & _).
    rewrite Ha, Hv. apply abs_numeric_fabs. intros Heq. apply Hmin.
    unfold group_values. apply list_elem_of_fmap. exists (i, r').
    split; [|done]. simpl. by rewrite Hv.
Qed.

End TrialGroups.

(** ** Membership of the rows of a file *)

Section Membership.

Variable lex : string → float.

(** Which rows of the file reach a group. *)
Lemma contributes_iff tag cols data i r :
  data !! i = Some r →
  contributes (trial_groups (valid_frame lex tag (frame cols data))) i
  ↔ valid lex tag r = true ∧ has_key r = true.
Proof.
  intros Hi. unfold contributes. split.
  - intros (k & g & Hg & Hin).
    apply list_elem_of_fmap in Hin as ([j r'] & -> & Hin).
    apply (trial_groups_member _ _ _ _ _ _ _ Hg) in Hin
      as (r0 & Hr0 & _ & Hv & Hh & _).
    apply frame_rows_elem in Hr0. simpl in *.
    by replace r with r0 by congruence.
  - intros [Hv Hh].
    destruct (trial_groups_of_row lex tag (frame cols data) i r)
      as (g & Hg & Hin); [by apply frame_rows_elem|done|done|].
    exists (trial_key r), g. split; [done|].
    apply list_elem_of_fmap. eexists (i, _). split; [|exact Hin]. done.
Qed.

(** A row is a member of the group of its own key only. *)
Lemma contributes_once tag cols data i r k g :
  data !! i = Some r →
  trial_groups (valid_frame lex tag (frame cols data)) !! k = Some g →
  i ∈ g.*1 → k = trial_key r.
Proof.
  intros Hi Hg Hin.
  apply list_elem_of_fmap in Hin as ([j r'] & -> & Hin).
  apply (trial_groups_member _ _ _ _ _ _ _ Hg) in Hin
    as (r0 & Hr0 & _ & _ & _ & ->).
  apply frame_rows_elem in Hr0. simpl in *. congruence.
Qed.

(** The groups together hold each row that has a key once. *)
Lemma group_rows_concat by_ rs :
  mjoin (map_to_list (group_rows by_ rs)).*2
  ≡ₚ filter (λ ir, is_Some (group_key by_ ir.2)) rs.
Proof.
  induction rs as [|ir rs IH]; [done|].
  simpl. rewrite filter_cons.
  destruct (group_key by_ ir.2) as [k|] eqn:Ek.
  2:{ rewrite decide_False by (by intros [? ?]). done. }
  rewrite decide_True by eauto.
  set (m := group_rows by_ rs) in *.
  assert (Hnew : partial_alter (λ o, Some (ir :: default [] o)) k m
                 = <[k := ir :: default [] (m !! k)]> (delete k m)).
  { apply map_eq. intros j. rewrite lookup_partial_alter, lookup_insert.
    case_decide; [done|]. by rewrite lookup_delete_ne. }
  rewrite Hnew, map_to_list_insert by apply lookup_delete_eq.
  rewrite fmap_cons. simpl. rewrite <- IH.
  destruct (m !! k) as [l|] eqn:El; simpl.
  - rewrite <- (map_to_list_delete m k l El). rewrite fmap_cons. done.
  - by rewrite delete_id.
Qed.

Lemma is_Some_group_key_trial (r : row) :
  is_Some (group_key ["Trial"; "TrialNo"] r) ↔ has_key r = true.
Proof.
  split.
  - intros [k Hk]. by apply group_key_trial in Hk as [? _].
  - intros Hh. exists (trial_key r). by apply group_key_trial.
Qed.

(** The members of all groups are the prepared valid rows with a key, each
    once. *)
Lemma trial_groups_partition tag df :
  mjoin (map_to_list (trial_groups (valid_frame lex tag df))).*2
  ≡ₚ (λ ir, (ir.1, prepared lex (int64_values tag (rows df).*2) ir.2))
       <$> filter (λ ir, valid lex tag ir.2 = true ∧ has_key ir.2 = true)
                  (rows df).
Proof.
  unfold trial_groups. rewrite group_rows_concat.
  unfold valid_frame. simpl. rewrite filter_fmap. simpl.
  rewrite list_filter_filter.
  rewrite (list_filter_iff _
    (λ ir : nat * row, valid lex tag ir.2 = true ∧ has_key ir.2 = true)).
  - done.
  - intros [i r]. simpl. rewrite prepared_key, is_Some_group_key_trial. tauto.
Qed.

End Membership.

(** ** The extrema and their means *)

Section Summaries.

Variable lex : string → float.

Lemma values_group_max (c : string) (G : gmap key (list (nat * row))) :
  values (group_max c G)
  = (λ g, series_max (group_values c g)) <$> (map_to_list G).*2.
Proof.
  unfold values, group_max. rewrite map_to_list_fmap.
  rewrite <- !list_fmap_compose. apply list_fmap_ext. by intros i [k g] _.
Qed.

Lemma size_values (s : gmap key float) : length (values s) = size s.
Proof. unfold values. by rewrite length_fmap, length_map_to_list. Qed.

Lemma groups_elem (G : gmap key (list (nat * row))) g :
  g ∈ (map_to_list G).*2 → ∃ k, G !! k = Some g.
Proof.
  intros ([k g'] & -> & Hin)%list_elem_of_fmap.
  exists k. by apply elem_of_map_to_list.
Qed.

(** Both reductions of one group: the maximum of its [ValueG] entries
    and the maximum of its [AbsValueG] entries. *)
Lemma group_extrema tag df k g :
  trial_groups (valid_frame lex tag df) !! k = Some g →
  let a := summarize (trial_groups (valid_frame lex tag df)) in
  let vs := group_values "ValueG" g in
  let ws := group_values "AbsValueG" g in
  max_values a !! k = Some (series_max vs)
  ∧ abs_max_values a !! k = Some (series_max ws)
  ∧ is_maximum (series_max vs) vs
  ∧ is_maximum (series_max ws) ws
  ∧ notna (series_max vs) = true
  ∧ notna (series_max ws) = true
  ∧ series_max ws ≠ NInf.
Proof.
  intros Hg a vs ws.
  destruct (trial_groups_values lex tag df k g Hg) as (Hne & Hna & Hnb & _).
  assert (Hvs : vs ≠ []) by (unfold vs, group_values; by destruct g).
  assert (Hws : ws ≠ []) by (unfold ws, group_values; by destruct g).
  assert (Hna' : Forall (λ x, notna x = true) ws).
  { eapply Forall_impl; [exact Hnb|]. by intros x [? _]. }
  destruct (series_max_is_maximum vs Hvs Hna) as [? ?].
  destruct (series_max_is_maximum ws Hws Hna') as [[Hin ?] ?].
  split_and!; try done.
  - unfold a, summarize, group_max. simpl. by rewrite lookup_fmap, Hg.
  - unfold a, summarize, group_max. simpl. by rewrite lookup_fmap, Hg.
  - rewrite Forall_forall in Hnb. by apply Hnb.
Qed.

(** In a group without the least int64, the absolute maximum is the
    maximum of the absolute values; it is at least the signed maximum,
    and at least 0. *)
Lemma group_extrema_order tag df k g :
  trial_groups (valid_frame lex tag df) !! k = Some g →
  let vs := group_values "ValueG" g in
  let ws := group_values "AbsValueG" g in
  of_Z int64_min ∉ vs →
  ws = fabs <$> vs
  ∧ fle (series_max vs) (series_max ws) = true
  ∧ fle (of_Z 0) (series_max ws) = true.
Proof.
  intros Hg vs ws Hmin.
  destruct (trial_groups_values lex tag df k g Hg) as (_ & _ & _ & Habs).
  specialize (Habs Hmin). fold vs ws in Habs.
  destruct (group_extrema tag df k g Hg)
    as (_ & _ & [Hin Hle] & [Hin' Hle'] & Hn & Hn' & _).
  fold vs ws in Hin, Hle, Hin', Hle', Hn, Hn'.
  split; [done|]. rewrite Habs in *. split.
  - eapply fle_trans; [apply fabs_ge, Hn|].
    apply Hle'. apply list_elem_of_fmap. eauto.
  - apply list_elem_of_fmap in Hin' as (x & Hx & Hxin). rewrite Hx.
    apply fabs_nonneg. rewrite Hx, fabs_notna in Hn'. done.
Qed.

(** No maximum is NaN, and no absolute maximum is [-inf]. *)
Lemma summarize_values tag df :
  let G := trial_groups (valid_frame lex tag df) in
  let a := summarize G in
  Forall (λ x, notna x = true) (values (max_values a))
  ∧ Forall (λ x, notna x = true ∧ x ≠ NInf) (values (abs_max_values a)).
Proof.
  intros G a. unfold a, summarize. simpl. rewrite !values_group_max.
  split.
  - apply Forall_fmap, Forall_forall. intros g [k Hg]%groups_elem.
    by destruct (group_extrema tag df k g Hg) as (_ & _ & _ & _ & ? & _).
  - apply Forall_fmap, Forall_forall. intros g [k Hg]%groups_elem.
    by destruct (group_extrema tag df k g Hg)
      as (_ & _ & _ & _ & _ & ? & ?).
Qed.


(** Without groups both means are NaN. *)
Lemma summarize_empty : summarize ∅ = mkAnalysis ∅ NaN ∅ NaN.
Proof.
  unfold summarize, group_max. rewrite !fmap_empty.
  unfold values. by rewrite map_to_list_empty.
Qed.

(** The means are the sums of the extrema divided by the number of
    groups. *)
Lemma summarize_means tag df :
  let G := trial_groups (valid_frame lex tag df) in
  let a := summarize G in
  mean_of_maxes a = fdiv_count (fsum (values (max_values a))) (size G)
  ∧ mean_of_abs_maxes a
    = fdiv_count (fsum (values (abs_max_values a))) (size G)
  ∧ size (max_values a) = size G
  ∧ size (abs_max_values a) = size G.
Proof.
  intros G a. destruct (summarize_values tag df) as (Hs & Ha).
  fold G in Hs, Ha. fold a in Hs, Ha.
  assert (Ha' : Forall (λ x, notna x = true) (values (abs_max_values a))).
  { eapply Forall_impl; [exact Ha|]. by intros x [? _]. }
  assert (H1 : size (max_values a) = size G)
    by apply map_size_fmap.
  assert (H2 : size (abs_max_values a) = size G)
    by apply map_size_fmap.
  split_and!; try done.
  - change (mean_of_maxes a) with (series_mean (values (max_values a))).
    by rewrite series_mean_notna, size_values, H1.
  - change (mean_of_abs_maxes a)
      with (series_mean (values (abs_max_values a))).
    by rewrite series_mean_notna, size_values, H2.
Qed.

End Summaries.

(** ** Runs on a file system *)

Section Runs.

Variable lex : string → float.

Lemma run_success fs path df a :
  read_csv fs path = Ok df → analyze_frame lex df = Ok a →
  analyze_max_g_values lex fs path
  = ((Some (max_values a), Some (mean_of_maxes a),
      Some (abs_max_values a), Some (mean_of_abs_maxes a)),
     [PrintReport path a])
  ∧ main lex fs path
    = [PrintReport path a;
       WriteReport path (max_values a) (mean_of_maxes a)
                   (abs_max_values a) (mean_of_abs_maxes a);
       PrintSaved path].
Proof.
  intros Hr Ha.
  assert (H : analyze_max_g_values lex fs path
    = ((Some (max_values a), Some (mean_of_maxes a),
        Some (abs_max_values a), Some (mean_of_abs_maxes a)),
       [PrintReport path a])).
  { unfold analyze_max_g_values. rewrite Hr. simpl. by rewrite Ha. }
  split; [done|]. unfold main. by rewrite H.
Qed.

Lemma run_failure fs path e :
  (df ← read_csv fs path; analyze_frame lex df) = Raise e →
  analyze_max_g_values lex fs path
  = ((None, None, None, None), [error_line path e])
  ∧ main lex fs path = [error_line path e].
Proof.
  intros He.
  assert (H : analyze_max_g_values lex fs path
    = ((None, None, None, None), [error_line path e])).
  { unfold analyze_max_g_values. rewrite He. by destruct e. }
  split; [done|]. unfold main. by rewrite H.
Qed.

Lemma run_cases fs path :
  (∃ df a, read_csv fs path = Ok df ∧ analyze_frame lex df = Ok a)
  ∨ (∃ e, (df ← read_csv fs path; analyze_frame lex df) = Raise e).
Proof.
  destruct (read_csv fs path) as [df|e] eqn:Hr.
  - destruct (analyze_frame lex df) as [a|e] eqn:Ha.
    + left. eauto.
    + right. exists e. simpl. done.
  - right. by exists e.
Qed.

(** [main] lets no exception escape. *)
Lemma main_no_uncaught fs path e : Uncaught e ∉ main lex fs path.
Proof.
  destruct (run_cases fs path) as [(df & a & Hr & Ha)|[e' He]].
  - destruct (run_success fs path df a Hr Ha) as [_ ->].
    rewrite !elem_of_cons. intros [?|[?|[?|?%elem_of_nil]]]; done.
  - destruct (run_failure fs path e' He) as [_ ->].
    rewrite list_elem_of_singleton. by destruct e'.
Qed.

(** A returned mapping comes from a successful analysis of the table at
    the path. *)
Lemma run_returned fs path d m ad am out :
  analyze_max_g_values lex fs path = ((Some d, m, ad, am), out) →
  ∃ cols data a,
    fs !! path = Some (Table cols data)
    ∧ analyze_frame lex (frame cols data) = Ok a
    ∧ d = max_values a ∧ m = Some (mean_of_maxes a)
    ∧ ad = Some (abs_max_values a) ∧ am = Some (mean_of_abs_maxes a)
    ∧ out = [PrintReport path a].
Proof.
  intros H.
  destruct (run_cases fs path) as [(df & a & Hr & Ha)|[e' He]].
  - destruct (run_success fs path df a Hr Ha) as [H' _].
    rewrite H' in H. injection H as <- <- <- <- <-.
    unfold read_csv in Hr. destruct (fs !! path) as [[cols data|msg|msg]|] eqn:E;
      try done.
    injection Hr as <-. by exists cols, data, a.
  - destruct (run_failure fs path e' He) as [H' _]. congruence.
Qed.

End Runs.

(** * The claims *)

Section Claims.

Variable lex : string → float.

Lemma valid_samples_Ok tag df df' :
  head (columns df) = Some tag → valid_samples lex df = Ok df' →
  df' = valid_frame lex tag df.
Proof.
  rewrite valid_samples_eq. destruct (columns df) as [|t cols]; [done|].
  intros [= ->]. by case_decide; intros [= <-].
Qed.

(** C1, as amended: a readable table with the required columns in which no
    row is a valid sample with a key, so that there is no group, raises
    nothing. The run returns two empty mappings with NaN for both means,
    prints the report and writes the report file. *)
Theorem no_valid_sample_yields_nan fs path cols data tag :
  fs !! path = Some (Table cols data) →
  head cols = Some tag → required cols →
  (∀ r, r ∈ data → valid lex tag r && has_key r = false) →
  analyze_max_g_values lex fs path
  = ((Some ∅, Some NaN, Some ∅, Some NaN),
     [PrintReport path (mkAnalysis ∅ NaN ∅ NaN)])
  ∧ main lex fs path
    = [PrintReport path (mkAnalysis ∅ NaN ∅ NaN);
       WriteReport path ∅ NaN ∅ NaN; PrintSaved path].
Proof.
  intros Hfs Hh Hreq Hnone.
  assert (Hr : read_csv fs path = Ok (frame cols data))
    by (unfold read_csv; by rewrite Hfs).
  assert (Ha : analyze_frame lex (frame cols data)
               = Ok (mkAnalysis ∅ NaN ∅ NaN)).
  { rewrite (analyze_frame_required lex tag) by done.
    f_equal. rewrite <- summarize_empty. f_equal.
    unfold trial_groups. apply (proj2 (group_rows_empty _ _)).
    intros [i r'] Hin. unfold valid_frame in Hin. cbn [rows] in Hin.
    apply list_elem_of_fmap in Hin as ([j r] & [= -> ->] & Hin).
    apply list_elem_of_filter in Hin as [Hv Hin].
    apply frame_rows_elem in Hin. cbn [fst snd] in *.
    assert (Hmem : r ∈ data) by (apply list_elem_of_lookup; eauto).
    specialize (Hnone r Hmem). rewrite Hv in Hnone. simpl in Hnone.
    rewrite prepared_key.
    destruct (group_key ["Trial"; "TrialNo"]%string r) as [k|] eqn:Ek;
      [|done].
    apply group_key_trial in Ek as [Hk _]. congruence. }
  exact (run_success lex fs path _ _ Hr Ha).
Qed.

(** C2, as amended: a row of the file is a member of some group exactly
    when its tag cell equals -900, its [ValueG] cell coerces to a number
    other than NaN (finite or infinite), and neither its [Trial] nor its
    [TrialNo] cell is missing. *)
Theorem row_contributes_iff cols data tag df' i r :
  head cols = Some tag →
  valid_samples lex (frame cols data) = Ok df' →
  data !! i = Some r →
  contributes (trial_groups df') i
  ↔ eq_int (cell r tag) (-900) = true
    ∧ notna (to_numeric lex (cell r "ValueG")) = true
    ∧ value_notna (cell r "Trial") = true
    ∧ value_notna (cell r "TrialNo") = true.
Proof.
  intros Hh Hv Hi. rewrite (valid_samples_Ok tag (frame cols data) _ Hh Hv).
  rewrite (contributes_iff lex tag cols data i r Hi).
  unfold valid, has_key. rewrite !andb_true_iff. tauto.
Qed.

(** Every group of valid samples is non-empty; its signed maximum is the
    maximum of its [ValueG] entries and its absolute maximum is the
    maximum of its [AbsValueG] entries, each reduced from the group's own
    entries. In a group without the least int64 the [AbsValueG] entries
    are the absolute values of the [ValueG] entries, so that the absolute
    maximum is the maximum of the absolute values. *)
Theorem group_extrema_independent df df' a k g :
  valid_samples lex df = Ok df' →
  analyze_frame lex df = Ok a →
  trial_groups df' !! k = Some g →
  g ≠ []
  ∧ max_values a !! k = Some (series_max (group_values "ValueG" g))
  ∧ is_maximum (series_max (group_values "ValueG" g))
               (group_values "ValueG" g)
  ∧ abs_max_values a !! k = Some (series_max (group_values "AbsValueG" g))
  ∧ is_maximum (series_max (group_values "AbsValueG" g))
               (group_values "AbsValueG" g)
  ∧ (of_Z int64_min ∉ group_values "ValueG" g →
     group_values "AbsValueG" g = fabs <$> group_values "ValueG" g
     ∧ abs_max_values a !! k
       = Some (series_max (fabs <$> group_values "ValueG" g))
     ∧ is_maximum (series_max (fabs <$> group_values "ValueG" g))
                  (fabs <$> group_values "ValueG" g)).
Proof.
  intros Hv Ha Hg.
  apply analyze_frame_Ok in Ha as (tag & Hh & _ & ->).
  rewrite (valid_samples_Ok tag _ _ Hh Hv) in Hg.
  destruct (group_extrema lex tag df k g Hg) as (? & Hm & ? & Hmax & _).
  split_and!; try done.
  - by apply group_rows_Some in Hg as [_ ?].
  - intros Hmin.
    destruct (group_extrema_order lex tag df k g Hg Hmin) as (Habs & _).
    by rewrite <- Habs.
Qed.


(** C6: a table that lacks a column the analysis looks up ([ValueG],
    [Trial] or [TrialNo]) makes the run print the processing-error line for
    the failed lookup, return four [None] and write no report; so does a
    file whose text the reader rejects; and [main] lets no exception escape
    on any file system and path. *)
Theorem schema_error_reported fs path :
  (∀ e, Uncaught e ∉ main lex fs path)
  ∧ (∀ cols data,
       fs !! path = Some (Table cols data) → ¬ required cols →
       ∃ e, lookup_error cols e
            ∧ analyze_max_g_values lex fs path
              = ((None, None, None, None), [PrintError e])
            ∧ main lex fs path = [PrintError e])
  ∧ (∀ msg,
       fs !! path = Some (Rejected msg) →
       analyze_max_g_values lex fs path
       = ((None, None, None, None), [PrintError (ReadError msg)])
       ∧ main lex fs path = [PrintError (ReadError msg)]).
Proof.
  split; [intros e; apply main_no_uncaught|].
  split.
  2:{ intros msg Hfs. apply (run_failure lex fs path (ReadError msg)).
      unfold read_csv. by rewrite Hfs. }
  intros cols data Hfs Hreq.
  assert (He : ∃ e, lookup_error cols e
                    ∧ analyze_frame lex (frame cols data) = Raise e).
  { rewrite analyze_frame_eq. simpl. destruct cols as [|tag cols].
    { exists IndexError. split; [by left|done]. }
    unfold required in Hreq.
    repeat case_decide; try tauto.
    - exists (KeyError "TrialNo"). split; [right|done].
      eexists. split_and!; [done|done|rewrite !elem_of_cons; auto].
    - exists (KeyError "Trial"). split; [right|done].
      eexists. split_and!; [done|done|rewrite !elem_of_cons; auto].
    - exists (KeyError "ValueG"). split; [right|done].
      eexists. split_and!; [done|done|rewrite !elem_of_cons; auto]. }
  destruct He as (e & Hkind & He). exists e. split; [done|].
  assert (Hl : error_line path e = PrintError e).
  { by destruct Hkind as [->|(c & -> & _)]. }
  rewrite <- Hl. apply run_failure.
  unfold read_csv. rewrite Hfs. simpl. done.
Qed.

Lemma summarize_perm by_ rs rs' :
  rs.*2 ≡ₚ rs'.*2 →
  summarize (group_rows by_ rs) = summarize (group_rows by_ rs').
Proof.
  intros Hp. unfold summarize.
  by rewrite !(group_max_perm _ by_ rs rs' Hp).
Qed.

(** C7: a reordering of the rows of the table changes nothing in the
    result: the analysis (both mappings, hence the groups and their count,
    and both means) and the run as a whole are the same, and so is the set
    of group keys. *)
Theorem row_order_irrelevant cols data data' :
  data ≡ₚ data' →
  analyze_frame lex (frame cols data) = analyze_frame lex (frame cols data')
  ∧ (∀ tag, dom (trial_groups (valid_frame lex tag (frame cols data)))
            = dom (trial_groups (valid_frame lex tag (frame cols data'))))
  ∧ (∀ fs path,
       analyze_max_g_values lex (<[path := Table cols data]> fs) path
       = analyze_max_g_values lex (<[path := Table cols data']> fs) path).
Proof.
  intros Hp.
  assert (Hrows : ∀ tag,
    (rows (valid_frame lex tag (frame cols data))).*2
    ≡ₚ (rows (valid_frame lex tag (frame cols data'))).*2).
  { intros tag. rewrite !valid_frame_rows_snd, !frame_rows_snd.
    rewrite (int64_values_perm tag data data' Hp). by rewrite Hp. }
  assert (Ha : analyze_frame lex (frame cols data)
               = analyze_frame lex (frame cols data')).
  { rewrite !analyze_frame_eq. simpl. destruct cols as [|tag cols]; [done|].
    repeat case_decide; try done. f_equal.
    apply summarize_perm, Hrows. }
  split_and!; [done| |].
  - intros tag.
    rewrite <- (dom_fmap_L
      (λ l, series_max (group_values "ValueG" l))
      (trial_groups (valid_frame lex tag (frame cols data)))).
    rewrite <- (dom_fmap_L
      (λ l, series_max (group_values "ValueG" l))
      (trial_groups (valid_frame lex tag (frame cols data')))).
    f_equal. apply (group_max_perm "ValueG"), Hrows.
  - intros fs path. unfold analyze_max_g_values, read_csv.
    rewrite !lookup_insert_eq. simpl. by rewrite Ha.
Qed.

Lemma NoDup_filter_fst {A B} (P : A * B → Prop) `{!∀ x, Decision (P x)}
    (l : list (A * B)) :
  NoDup l.*1 → NoDup (filter P l).*1.
Proof.
  intros Hnd. eapply sublist_NoDup; [exact Hnd|].
  apply fmap_sublist, sublist_filter.
Qed.

(** C8, as amended: the groups partition the valid samples that have a
    key. Each valid sample whose [Trial] and [TrialNo] cells are both
    present is a member of the group of its pair and of no other group;
    the members of all groups together are these samples, each once; a
    valid sample with a missing key cell is a member of no group. *)
Theorem groups_partition_keyed_samples cols data tag df' :
  head cols = Some tag →
  valid_samples lex (frame cols data) = Ok df' →
  (∀ i r, data !! i = Some r →
          valid lex tag r = true → has_key r = true →
          ∃ g, trial_groups df' !! trial_key r = Some g ∧ i ∈ g.*1
               ∧ ∀ k' g', trial_groups df' !! k' = Some g' →
                          i ∈ g'.*1 → k' = trial_key r)
  ∧ (mjoin (map_to_list (trial_groups df')).*2).*1
    ≡ₚ (filter (λ ir, valid lex tag ir.2 = true ∧ has_key ir.2 = true)
               (rows (frame cols data))).*1
  ∧ NoDup (mjoin (map_to_list (trial_groups df')).*2).*1
  ∧ (∀ i r, data !! i = Some r →
            valid lex tag r = true → has_key r = false →
            ¬ contributes (trial_groups df') i).
Proof.
  intros Hh Hv. rewrite (valid_samples_Ok tag (frame cols data) _ Hh Hv).
  assert (Hidx : (mjoin (map_to_list
      (trial_groups (valid_frame lex tag (frame cols data)))).*2).*1
    ≡ₚ (filter (λ ir, valid lex tag ir.2 = true ∧ has_key ir.2 = true)
               (rows (frame cols data))).*1).
  { rewrite trial_groups_partition, <- list_fmap_compose. done. }
  split_and!.
  - intros i r Hi Hval Hkey.
    destruct (trial_groups_of_row lex tag (frame cols data) i r)
      as (g & Hg & Hin); [by apply frame_rows_elem|done|done|].
    exists g. split_and!; [done| |].
    + apply list_elem_of_fmap. eexists (i, _). split; [|exact Hin]. done.
    + intros k' g' Hg' Hin'. by eapply contributes_once.
  - done.
  - rewrite Hidx. apply NoDup_filter_fst, frame_rows_NoDup.
  - intros i r Hi Hval Hkey Hc.
    apply (contributes_iff lex tag cols data i r Hi) in Hc as [_ Hc].
    congruence.
Qed.

(** C9: the two returned mappings have the same keys, entry for entry, and
    the two reported group counts are equal. *)
Theorem extrema_same_keys fs path d m ad am out :
  analyze_max_g_values lex fs path = ((Some d, m, Some ad, am), out) →
  dom d = dom ad
  ∧ (∀ k, is_Some (d !! k) ↔ is_Some (ad !! k))
  ∧ size d = size ad.
Proof.
  intros (cols & data & a & _ & Ha & -> & _ & [= ->] & _)%run_returned.
  apply analyze_frame_Ok in Ha as (tag & _ & _ & ->).
  unfold summarize, group_max. simpl.
  assert (Hd : dom ((λ l, series_max (group_values "ValueG" l))
                 <$> trial_groups (valid_frame lex tag (frame cols data)))
         = dom ((λ l, series_max (group_values "AbsValueG" l))
                 <$> trial_groups (valid_frame lex tag (frame cols data))))
    by by rewrite !dom_fmap_L.
  split_and!.
  - exact Hd.
  - intros k. by rewrite !lookup_fmap, !fmap_is_Some.
  - by rewrite !map_size_fmap.
Qed.

Lemma values_elem (s : gmap key float) x :
  x ∈ values s → ∃ k, s !! k = Some x.
Proof.
  intros ([k y] & -> & Hin)%list_elem_of_fmap.
  exists k. by apply elem_of_map_to_list.
Qed.


End Claims.

(** * Instances *)

(** ** Runs on concrete tables *)



(** C1 at a file that holds metadata rows only. *)
Lemma no_valid_sample_yields_nan_witness :
  main decimal (disk header only_metadata) csv_file
  = [PrintReport csv_file (mkAnalysis ∅ NaN ∅ NaN);
     WriteReport csv_file ∅ NaN ∅ NaN; PrintSaved csv_file].
Proof.
  apply (no_valid_sample_yields_nan decimal (disk header only_metadata) csv_file
           header only_metadata "Tag").
  - reflexivity.
  - reflexivity.
  - unfold required, header. rewrite !elem_of_cons. tauto.
  - intros r Hr. unfold only_metadata in Hr.
    rewrite !elem_of_cons in Hr.
    destruct Hr as [->|[->|Hr]]; [reflexivity|reflexivity|].
    by apply elem_of_nil in Hr.
Defined.

(** C1 as stated fails: on a file without any valid sample the run
    returns NaN for both means and signals nothing. *)
Lemma empty_groups_not_signalled :
  analyze_max_g_values decimal (disk header only_metadata) csv_file
  = ((Some ∅, Some NaN, Some ∅, Some NaN),
     [PrintReport csv_file (mkAnalysis ∅ NaN ∅ NaN)])
  ∧ ¬ (∀ (lex : string → float) fs path cols data tag,
         fs !! path = Some (Table cols data) →
         head cols = Some tag → required cols →
         (∀ r, r ∈ data → valid lex tag r = false) →
         (analyze_max_g_values lex fs path).1 = (None, None, None, None)).
Proof.
  assert (Hrun : analyze_max_g_values decimal (disk header only_metadata) csv_file
    = ((Some ∅, Some NaN, Some ∅, Some NaN),
       [PrintReport csv_file (mkAnalysis ∅ NaN ∅ NaN)])) by reflexivity.
  split; [exact Hrun|]. intros Hclaim.
  specialize (Hclaim decimal (disk header only_metadata) csv_file header
                only_metadata "Tag"%string).
  rewrite Hrun in Hclaim. simpl in Hclaim.
  assert (Hfalse : (Some (∅ : gmap key float), Some NaN,
                    Some (∅ : gmap key float), Some NaN)
                   = (None, None, None, None)); [|discriminate Hfalse].
  apply Hclaim.
  - reflexivity.
  - reflexivity.
  - unfold required, header. rewrite !elem_of_cons. tauto.
  - intros r Hr. unfold only_metadata in Hr.
    rewrite !elem_of_cons in Hr.
    destruct Hr as [->|[->|Hr]]; [reflexivity|reflexivity|].
    by apply elem_of_nil in Hr.
Qed.

(** C6 at a table without the [ValueG] column. *)
Lemma schema_error_reported_witness :
  ∃ e, lookup_error no_value_column e
       ∧ analyze_max_g_values decimal (disk no_value_column scenario) csv_file
         = ((None, None, None, None), [PrintError e])
       ∧ main decimal (disk no_value_column scenario) csv_file = [PrintError e].
Proof.
  apply (proj1 (proj2 (schema_error_reported decimal
                         (disk no_value_column scenario) csv_file))
           no_value_column scenario).
  - reflexivity.
  - unfold required, no_value_column. rewrite !elem_of_cons.
    intros [[H|[H|[H|H]]] _]; try discriminate H. by apply elem_of_nil in H.
Defined.

(** ** Membership on concrete tables *)

(** C2 at the first row of the scenario. *)
Lemma row_contributes_iff_witness :
  contributes
    (trial_groups (valid_frame decimal "Tag" (frame header scenario))) 0
  ↔ eq_int (cell (sample (-900) "A" 1 (VStr "3.5")) "Tag") (-900) = true
    ∧ notna (to_numeric decimal
               (cell (sample (-900) "A" 1 (VStr "3.5")) "ValueG")) = true
    ∧ value_notna (cell (sample (-900) "A" 1 (VStr "3.5")) "Trial") = true
    ∧ value_notna (cell (sample (-900) "A" 1 (VStr "3.5")) "TrialNo") = true.
Proof.
  apply (row_contributes_iff decimal header scenario "Tag").
  - reflexivity.
  - reflexivity.
  - reflexivity.
Defined.

(** C2 as stated fails in both directions: a row tagged -900 whose
    [ValueG] is infinite is a member of a group, and a row tagged -900 with
    a finite [ValueG] and an empty [Trial] is a member of none. *)
Lemma finite_value_is_not_the_test :
  (valid_samples decimal (frame header infinite_sample)
   = Ok (valid_frame decimal "Tag" (frame header infinite_sample))
   ∧ contributes
     (trial_groups (valid_frame decimal "Tag" (frame header infinite_sample)))
     0
   ∧ is_finite (to_numeric decimal
                  (cell (sample (-900) "A" 1 (VFloat PInf)) "ValueG")) = false)
  ∧ (valid_samples decimal (frame header keyless_sample)
     = Ok (valid_frame decimal "Tag" (frame header keyless_sample))
     ∧ ¬ contributes
         (trial_groups
            (valid_frame decimal "Tag" (frame header keyless_sample))) 0
     ∧ eq_int (VInt (-900)) (-900) = true
     ∧ is_finite (to_numeric decimal (VFloat (of_Q (7 # 2)))) = true)
  ∧ ¬ (∀ (lex : string → float) cols data tag df' i r,
         head cols = Some tag →
         valid_samples lex (frame cols data) = Ok df' →
         data !! i = Some r →
         contributes (trial_groups df') i
         ↔ eq_int (cell r tag) (-900) = true
           ∧ is_finite (to_numeric lex (cell r "ValueG")) = true).
Proof.
  assert (Hinf : contributes
     (trial_groups (valid_frame decimal "Tag" (frame header infinite_sample)))
     0).
  { apply (contributes_iff decimal "Tag" header infinite_sample 0
             (sample (-900) "A" 1 (VFloat PInf))); [reflexivity|].
    split; reflexivity. }
  split_and!.
  - reflexivity.
  - exact Hinf.
  - reflexivity.
  - reflexivity.
  - intros Hc.
    apply (contributes_iff decimal "Tag" header keyless_sample 0
             (record (VInt (-900)) (VFloat NaN) (VInt 1)
                     (VFloat (of_Q (7 # 2))))) in Hc; [|reflexivity].
    destruct Hc as [_ Hc]. discriminate Hc.
  - reflexivity.
  - reflexivity.
  - intros Hclaim.
    specialize (Hclaim decimal header infinite_sample "Tag"%string
      (valid_frame decimal "Tag" (frame header infinite_sample)) 0%nat
      (sample (-900) "A" 1 (VFloat PInf)) eq_refl eq_refl eq_refl).
    apply Hclaim in Hinf as [_ Hfin]. discriminate Hfin.
Qed.

(** C8 at the scenario. *)
Lemma groups_partition_keyed_samples_witness :
  (∀ i r, scenario !! i = Some r →
          valid decimal "Tag" r = true → has_key r = true →
          ∃ g, trial_groups
                 (valid_frame decimal "Tag" (frame header scenario))
               !! trial_key r = Some g
               ∧ i ∈ g.*1
               ∧ ∀ k' g',
                   trial_groups
                     (valid_frame decimal "Tag" (frame header scenario))
                   !! k' = Some g' →
                   i ∈ g'.*1 → k' = trial_key r)
  ∧ NoDup (mjoin (map_to_list
       (trial_groups (valid_frame decimal "Tag" (frame header scenario)))).*2).*1.
Proof.
  destruct (groups_partition_keyed_samples decimal header scenario "Tag"
    (valid_frame decimal "Tag" (frame header scenario)) eq_refl eq_refl)
    as (Hone & _ & Hnodup & _).
  split; [exact Hone|exact Hnodup].
Defined.

(** C8 as stated fails: a valid sample whose [Trial] field is empty is a
    member of no group. *)
Lemma keyless_sample_in_no_group :
  (valid_samples decimal (frame header keyless_sample)
   = Ok (valid_frame decimal "Tag" (frame header keyless_sample))
   ∧ valid decimal "Tag"
     (record (VInt (-900)) (VFloat NaN) (VInt 1) (VFloat (of_Q (7 # 2))))
   = true
   ∧ trial_groups (valid_frame decimal "Tag" (frame header keyless_sample))
     = ∅)
  ∧ ¬ (∀ (lex : string → float) cols data tag df' i r,
         head cols = Some tag →
         valid_samples lex (frame cols data) = Ok df' →
         data !! i = Some r →
         valid lex tag r = true →
         ∃ k g, trial_groups df' !! k = Some g ∧ i ∈ g.*1).
Proof.
  assert (Hempty :
    trial_groups (valid_frame decimal "Tag" (frame header keyless_sample))
    = ∅) by reflexivity.
  split_and!.
  - reflexivity.
  - reflexivity.
  - exact Hempty.
  - intros Hclaim.
    destruct (Hclaim decimal header keyless_sample "Tag"%string
      (valid_frame decimal "Tag" (frame header keyless_sample)) 0%nat
      (record (VInt (-900)) (VFloat NaN) (VInt 1) (VFloat (of_Q (7 # 2))))
      eq_refl eq_refl eq_refl eq_refl) as (k & g & Hg & _).
    rewrite Hempty, lookup_empty in Hg. discriminate Hg.
Qed.

(** ** Extrema and means on concrete tables *)

Ltac same_rational := apply Qc_is_canon; reflexivity.

(** Equality of computed floats, entry by entry: two canonical rationals
    are equal when they are equal as fractions. *)
Ltac same_floats :=
  repeat match goal with
         | |- Fin _ = Fin _ => f_equal; same_rational
         | |- _ :: _ = _ :: _ => f_equal
         | |- (_, _) = (_, _) => f_equal
         | |- Some _ = Some _ => f_equal
         | |- _ => reflexivity
         end.

(** The end-to-end scenario of the specification, with the decimals read
    exactly: group (A,1) has the maxima 3.5 and 7.2, group (A,2) has 4.0
    and 4.0, the means are 3.75 and 5.6, and there are two groups. *)
Example end_to_end_scenario :
  map_to_list (max_values (analysed scenario))
  = [([VStr "A"; VInt 1], of_Q (7 # 2)); ([VStr "A"; VInt 2], of_Z 4)]
  ∧ map_to_list (abs_max_values (analysed scenario))
    = [([VStr "A"; VInt 1], of_Q (36 # 5)); ([VStr "A"; VInt 2], of_Z 4)]
  ∧ mean_of_maxes (analysed scenario) = of_Q (15 # 4)
  ∧ mean_of_abs_maxes (analysed scenario) = of_Q (28 # 5)
  ∧ size (max_values (analysed scenario)) = 2%nat.
Proof.
  split_and!.
  - vm_compute. same_floats.
  - vm_compute. same_floats.
  - vm_compute. same_floats.
  - vm_compute. same_floats.
  - reflexivity.
Qed.

(** Two floats that a test tells apart are different. *)
Ltac told_apart_by f :=
  let H := fresh in
  intros H; apply (f_equal f) in H; vm_compute in H; discriminate H.

(** The group with the samples 3.0, -5.0 and 2.0: the signed maximum is
    3.0 and the absolute maximum is 5.0. *)
Lemma group_extrema_independent_witness :
  analyze_frame decimal (frame header one_group) = Ok (analysed one_group)
  ∧ max_values (analysed one_group) !! [VStr "A"; VInt 1] = Some (of_Z 3)
  ∧ abs_max_values (analysed one_group) !! [VStr "A"; VInt 1]
    = Some (of_Z 5).
Proof.
  split; [reflexivity|].
  destruct (group_extrema_independent decimal (frame header one_group)
    (valid_frame decimal "Tag" (frame header one_group))
    (analysed one_group) [VStr "A"; VInt 1]
    (rows (valid_frame decimal "Tag" (frame header one_group))))
    as (_ & Hs & _ & _ & _ & Hm).
  - reflexivity.
  - reflexivity.
  - reflexivity.
  - destruct Hm as (_ & Hm & _).
    { assert (Hvs : group_values "ValueG"
                (rows (valid_frame decimal "Tag" (frame header one_group)))
              = [of_Z 3; of_Z (-5); of_Z 2]) by (vm_compute; same_floats).
      rewrite Hvs, !elem_of_cons.
      intros [H|[H|[H|H]]];
        [revert H; told_apart_by (λ x, fle x (of_Z (-100)))..|].
      by apply elem_of_nil in H. }
    rewrite Hs, Hm. split; vm_compute; same_floats.
Defined.

(** C3 fails at a [ValueG] column of integers that holds the least int64,
    -9223372036854775808. Alone in its repetition it gives the signed
    maximum -2^63 and the absolute maximum -2^63, which is negative, where
    the maximum of the absolute values is 2^63; next to the sample 5 it
    gives the absolute maximum 5. *)
Theorem abs_max_wraps_at_int64_min :
  (analyze_frame decimal (frame header int64_minimum)
   = Ok (analysed int64_minimum)
   ∧ map_to_list (max_values (analysed int64_minimum))
     = [([VStr "A"; VInt 1], of_Z int64_min)]
   ∧ map_to_list (abs_max_values (analysed int64_minimum))
     = [([VStr "A"; VInt 1], of_Z int64_min)]
   ∧ series_max (fabs <$> [of_Z int64_min]) = of_Z 9223372036854775808
   ∧ fge (of_Z int64_min) (of_Z 0) = false
   ∧ mean_of_abs_maxes (analysed int64_minimum) = of_Z int64_min)
  ∧ (analyze_frame decimal (frame header int64_minimum_and_five)
     = Ok (analysed int64_minimum_and_five)
     ∧ map_to_list (abs_max_values (analysed int64_minimum_and_five))
       = [([VStr "A"; VInt 1], of_Z 5)]
     ∧ series_max (fabs <$> [of_Z int64_min; of_Z 5])
       = of_Z 9223372036854775808)
  ∧ ¬ (∀ (lex : string → float) df df' a k g,
         valid_samples lex df = Ok df' →
         analyze_frame lex df = Ok a →
         trial_groups df' !! k = Some g →
         abs_max_values a !! k
         = Some (series_max (fabs <$> group_values "ValueG" g))).
Proof.
  split_and!.
  - reflexivity.
  - vm_compute. same_floats.
  - vm_compute. same_floats.
  - vm_compute. same_floats.
  - reflexivity.
  - vm_compute. same_floats.
  - reflexivity.
  - vm_compute. same_floats.
  - vm_compute. same_floats.
  - intros Hclaim.
    specialize (Hclaim decimal (frame header int64_minimum)
      (valid_frame decimal "Tag" (frame header int64_minimum))
      (analysed int64_minimum) [VStr "A"; VInt 1]
      (rows (valid_frame decimal "Tag" (frame header int64_minimum)))
      eq_refl eq_refl eq_refl).
    revert Hclaim.
    told_apart_by (λ o : option float,
                     match o with Some x => fle (of_Z 0) x | None => false end).
Qed.

(** C7 at the scenario with its first two rows exchanged. *)
Lemma row_order_irrelevant_witness :
  analyze_frame decimal (frame header scenario)
  = analyze_frame decimal (frame header scenario_reordered).
Proof.
  apply (row_order_irrelevant decimal header scenario scenario_reordered).
  unfold scenario, scenario_reordered. apply perm_swap.
Defined.

(** C9 at the scenario. *)
Lemma extrema_same_keys_witness :
  analyze_max_g_values decimal (disk header scenario) csv_file
  = ((Some (max_values (analysed scenario)),
      Some (mean_of_maxes (analysed scenario)),
      Some (abs_max_values (analysed scenario)),
      Some (mean_of_abs_maxes (analysed scenario))),
     [PrintReport csv_file (analysed scenario)])
  ∧ dom (max_values (analysed scenario))
    = dom (abs_max_values (analysed scenario))
  ∧ size (max_values (analysed scenario))
    = size (abs_max_values (analysed scenario)).
Proof.
  destruct (extrema_same_keys decimal (disk header scenario) csv_file
    (max_values (analysed scenario))
    (Some (mean_of_maxes (analysed scenario)))
    (abs_max_values (analysed scenario))
    (Some (mean_of_abs_maxes (analysed scenario)))
    [PrintReport csv_file (analysed scenario)]) as (Hdom & _ & Hsize).
  - reflexivity.
  - split_and!; [reflexivity|exact Hdom|exact Hsize].
Defined.



(** * Further properties of the analysis *)

Section Extrema.

Variable lex : string → float.

(** The entries of both mappings, read off the table: a key has an entry
    when some kept row carries it, and the entries are the maximum of the
    [ValueG] numbers of these rows and the maximum of their [AbsValueG]
    numbers. *)
Lemma extrema_lookup tag cols data k :
  group_max "ValueG" (trial_groups (valid_frame lex tag (frame cols data)))
    !! k
  = match grouped_values lex tag k data with
    | [] => None
    | vs => Some (series_max vs)
    end
  ∧ group_max "AbsValueG"
      (trial_groups (valid_frame lex tag (frame cols data))) !! k
    = match grouped_abs_values lex tag (int64_values tag data) k data with
      | [] => None
      | ws => Some (series_max ws)
      end.
Proof.
  assert (Hmem : ∀ (f : row → float),
    (λ ir : nat * row, f ir.2)
      <$> members ["Trial"; "TrialNo"]%string k
            (rows (valid_frame lex tag (frame cols data)))
    = (λ r, f (prepared lex (int64_values tag data) r))
        <$> filter (λ r, valid lex tag r = true
                         ∧ group_key ["Trial"; "TrialNo"] r = Some k) data).
  { intros f. unfold members, valid_frame.
    rewrite (frame_rows_snd cols data). cbn [rows].
    set (ints := int64_values tag data).
    rewrite filter_fmap, <- list_fmap_compose, list_filter_filter.
    rewrite <- (frame_rows_snd cols data) at 2.
    rewrite (filter_fmap snd), <- list_fmap_compose.
    f_equal. apply list_filter_iff. intros [i r]. cbn [fst snd].
    rewrite prepared_key. tauto. }
  unfold trial_groups. rewrite !group_max_lookup.
  assert (Hv : (λ ir : nat * row, float_of (cell ir.2 "ValueG"))
      <$> members ["Trial"; "TrialNo"]%string k
            (rows (valid_frame lex tag (frame cols data)))
    = grouped_values lex tag k data).
  { rewrite (Hmem (λ r, float_of (cell r "ValueG"))).
    unfold grouped_values. apply list_fmap_ext. intros i r _.
    by rewrite prepared_ValueG_numeric. }
  assert (Ha : (λ ir : nat * row, float_of (cell ir.2 "AbsValueG"))
      <$> members ["Trial"; "TrialNo"]%string k
            (rows (valid_frame lex tag (frame cols data)))
    = grouped_abs_values lex tag (int64_values tag data) k data).
  { rewrite (Hmem (λ r, float_of (cell r "AbsValueG"))).
    unfold grouped_abs_values. apply list_fmap_ext. intros i r _.
    by rewrite prepared_AbsValueG. }
  destruct (members ["Trial"; "TrialNo"]%string k
              (rows (valid_frame lex tag (frame cols data)))) as [|ir g].
  - simpl in Hv, Ha. by rewrite <- Hv, <- Ha.
  - rewrite fmap_cons in Hv, Ha. by rewrite <- Hv, <- Ha.
Qed.

(** The kept numbers are never NaN. *)
Lemma grouped_values_notna tag k data :
  Forall (λ x, notna x = true) (grouped_values lex tag k data).
Proof.
  unfold grouped_values. apply Forall_fmap, Forall_forall.
  intros r [[Hv _] _]%list_elem_of_filter. simpl. unfold valid in Hv.
  by apply andb_true_iff in Hv as [_ ?].
Qed.

Lemma grouped_abs_values_notna tag ints k data :
  Forall (λ x, notna x = true) (grouped_abs_values lex tag ints k data).
Proof.
  unfold grouped_abs_values. apply Forall_fmap, Forall_forall.
  intros r [[Hv _] _]%list_elem_of_filter. simpl. unfold valid in Hv.
  apply andb_true_iff in Hv as [_ Hv].
  by destruct (abs_numeric_notna lex ints _ Hv).
Qed.

(** Two tables with the same entries in both mappings have the same
    analysis. *)
Lemma summarize_ext (G G' : gmap key (list (nat * row))) :
  group_max "ValueG" G = group_max "ValueG" G' →
  group_max "AbsValueG" G = group_max "AbsValueG" G' →
  summarize G = summarize G'.
Proof. intros H1 H2. unfold summarize. by rewrite H1, H2. Qed.

Lemma analyze_frame_ext cols data data' :
  (∀ tag k, head cols = Some tag →
     group_max "ValueG" (trial_groups (valid_frame lex tag (frame cols data)))
       !! k
     = group_max "ValueG"
         (trial_groups (valid_frame lex tag (frame cols data'))) !! k
     ∧ group_max "AbsValueG"
         (trial_groups (valid_frame lex tag (frame cols data))) !! k
       = group_max "AbsValueG"
           (trial_groups (valid_frame lex tag (frame cols data'))) !! k) →
  analyze_frame lex (frame cols data) = analyze_frame lex (frame cols data').
Proof.
  intros Hsame. rewrite !analyze_frame_eq. simpl.
  destruct cols as [|tag cols]; [done|].
  repeat case_decide; try done. f_equal.
  apply summarize_ext; apply map_eq; intros k;
    by destruct (Hsame tag k eq_refl).
Qed.

Lemma grouped_values_app tag k d1 d2 :
  grouped_values lex tag k (d1 ++ d2)
  = grouped_values lex tag k d1 ++ grouped_values lex tag k d2.
Proof. unfold grouped_values. by rewrite filter_app, fmap_app. Qed.

Lemma grouped_abs_values_app tag ints k d1 d2 :
  grouped_abs_values lex tag ints k (d1 ++ d2)
  = grouped_abs_values lex tag ints k d1
    ++ grouped_abs_values lex tag ints k d2.
Proof. unfold grouped_abs_values. by rewrite filter_app, fmap_app. Qed.

Lemma same_inputs_filter tag r r' :
  same_inputs tag r r' →
  valid lex tag r = valid lex tag r'
  ∧ group_key ["Trial"; "TrialNo"]%string r
    = group_key ["Trial"; "TrialNo"]%string r'.
Proof.
  intros (Ht & Hv & Hx & Hn). split.
  - unfold valid. by rewrite Ht, Hv.
  - unfold group_key. simpl. by rewrite Hx, Hn.
Qed.

Lemma grouped_values_same_inputs tag k data data' :
  Forall2 (same_inputs tag) data data' →
  grouped_values lex tag k data = grouped_values lex tag k data'.
Proof.
  unfold grouped_values.
  induction 1 as [|r r' data data' Hsame _ IH]; [done|].
  destruct (same_inputs_filter tag r r' Hsame) as [Hvalid Hkey].
  destruct Hsame as (_ & Hv & _).
  rewrite !filter_cons, Hvalid, Hkey.
  case_decide; [|done]. rewrite !fmap_cons, IH. by rewrite Hv.
Qed.

Lemma grouped_abs_values_same_inputs tag ints k data data' :
  Forall2 (same_inputs tag) data data' →
  grouped_abs_values lex tag ints k data
  = grouped_abs_values lex tag ints k data'.
Proof.
  unfold grouped_abs_values.
  induction 1 as [|r r' data data' Hsame _ IH]; [done|].
  destruct (same_inputs_filter tag r r' Hsame) as [Hvalid Hkey].
  destruct Hsame as (_ & Hv & _).
  rewrite !filter_cons, Hvalid, Hkey.
  case_decide; [|done]. rewrite !fmap_cons, IH. by rewrite Hv.
Qed.

(** Tables that read the same have a [ValueG] column of the same dtype. *)
Lemma int64_values_same_inputs tag data data' :
  Forall2 (same_inputs tag) data data' →
  int64_values tag data = int64_values tag data'.
Proof.
  unfold int64_values.
  induction 1 as [|r r' data data' (Ht & Hv & _) _ IH]; [done|].
  rewrite !filter_cons, Ht.
  case_decide; [|done]. cbn [forallb]. by rewrite IH, Hv.
Qed.

(** The maximum of two lists put together is the greater of their
    maxima. *)
Lemma series_max_app l1 l2 :
  l1 ≠ [] → l2 ≠ [] →
  Forall (λ x, notna x = true) l1 → Forall (λ x, notna x = true) l2 →
  series_max (l1 ++ l2) = fmax (series_max l1) (series_max l2).
Proof.
  intros Hne1 Hne2 Hn1 Hn2.
  destruct (series_max_is_maximum l1 Hne1 Hn1) as [[Hin1 Hle1] Hna1].
  destruct (series_max_is_maximum l2 Hne2 Hn2) as [[Hin2 Hle2] Hna2].
  destruct (series_max_is_maximum (l1 ++ l2)) as [Hmax _].
  { by destruct l1. }
  { by apply Forall_app. }
  eapply is_maximum_unique; [exact Hmax|]. split.
  - apply elem_of_app.
    destruct (fmax_choice (series_max l1) (series_max l2)) as [->| ->]; auto.
  - intros x [Hx|Hx]%elem_of_app.
    + eapply fle_trans; [by apply Hle1|]. by apply fmax_ge_l.
    + eapply fle_trans; [by apply Hle2|]. by apply fmax_ge_r.
Qed.

Lemma fmax_idemp x : fmax x x = x.
Proof. unfold fmax. by destruct (flt x x). Qed.

(** The maximum of a list followed by a copy of itself is its maximum. *)
Lemma series_max_app_same l :
  Forall (λ x, notna x = true) l → series_max (l ++ l) = series_max l.
Proof.
  intros Hn. destruct l as [|x l]; [done|].
  rewrite series_max_app by done. apply fmax_idemp.
Qed.

Lemma entry_of_copy (l : list float) :
  Forall (λ x, notna x = true) l →
  match l ++ l with [] => None | x :: vs => Some (series_max (x :: vs)) end
  = match l with [] => None | x :: vs => Some (series_max (x :: vs)) end.
Proof.
  intros Hn. destruct l as [|x l]; [done|].
  rewrite <- (series_max_app_same (x :: l) Hn). done.
Qed.

End Extrema.

(** * What the analysis reads and how it composes *)

Section Composition.

Variable lex : string → float.

(** X1: the analysis reads four columns only: the first column, [ValueG],
    [Trial] and [TrialNo]. Two tables with the same header whose rows read
    the same in these columns have the same analysis, whatever their other
    columns hold, a column [AbsValueG] of the file included. *)
Theorem only_four_columns_read cols tag data data' :
  head cols = Some tag →
  Forall2 (same_inputs tag) data data' →
  analyze_frame lex (frame cols data) = analyze_frame lex (frame cols data').
Proof.
  intros Hh Hsame. apply analyze_frame_ext. intros tag' k Hh'.
  assert (tag' = tag) as -> by congruence.
  destruct (extrema_lookup lex tag cols data k) as [-> ->].
  destruct (extrema_lookup lex tag cols data' k) as [-> ->].
  rewrite (int64_values_same_inputs tag data data' Hsame).
  rewrite (grouped_values_same_inputs lex tag k data data' Hsame).
  by rewrite (grouped_abs_values_same_inputs lex tag _ k data data' Hsame).
Qed.

(** X5: repeated rows do not change the result: the analysis of a table
    followed by a copy of itself is the analysis of the table. *)
Theorem repeated_rows_do_not_matter cols data :
  analyze_frame lex (frame cols (data ++ data))
  = analyze_frame lex (frame cols data).
Proof.
  apply analyze_frame_ext. intros tag k _.
  destruct (extrema_lookup lex tag cols (data ++ data) k) as [-> ->].
  destruct (extrema_lookup lex tag cols data k) as [-> ->].
  rewrite int64_values_app_same.
  rewrite grouped_values_app, grouped_abs_values_app.
  pose proof (grouped_values_notna lex tag k data) as Hn.
  pose proof (grouped_abs_values_notna lex tag
                (int64_values tag data) k data) as Hn'.
  split; by apply entry_of_copy.
Qed.

End Composition.

(** * Outcomes, invariants and bounds *)

Section Outcomes.

Variable lex : string → float.


(** X8: when no kept sample is negative the two mappings coincide, and so
    do the two means. *)
Theorem nonnegative_samples_coincide cols tag data a :
  head cols = Some tag →
  analyze_frame lex (frame cols data) = Ok a →
  (∀ r, r ∈ data → valid lex tag r = true →
        fle (of_Z 0) (to_numeric lex (cell r "ValueG")) = true) →
  abs_max_values a = max_values a
  ∧ mean_of_abs_maxes a = mean_of_maxes a.
Proof.
  intros Hh Ha Hpos.
  apply analyze_frame_Ok in Ha as (tag' & Hh' & _ & ->).
  simpl in Hh'. assert (tag' = tag) as -> by congruence.
  assert (Hmaps :
    group_max "AbsValueG" (trial_groups (valid_frame lex tag (frame cols data)))
    = group_max "ValueG" (trial_groups (valid_frame lex tag (frame cols data)))).
  { apply map_eq. intros k.
    destruct (extrema_lookup lex tag cols data k) as [-> ->].
    assert (Hid : grouped_abs_values lex tag (int64_values tag data) k data
                  = grouped_values lex tag k data).
    { unfold grouped_abs_values, grouped_values.
      apply list_fmap_ext. intros i r Hi. apply abs_numeric_of_nonneg.
      assert (Hin : r ∈ filter (λ r, valid lex tag r = true
        ∧ group_key ["Trial"; "TrialNo"]%string r = Some k) data)
        by (apply list_elem_of_lookup; eauto).
      apply list_elem_of_filter in Hin as [[Hv _] Hin]. by apply Hpos. }
    by rewrite Hid. }
  unfold summarize. cbn [max_values abs_max_values mean_of_maxes
                          mean_of_abs_maxes].
  by rewrite Hmaps.
Qed.

(** X9: no per-group maximum is ever NaN, in either mapping, and the mean
    of the absolute maxima is NaN exactly when there is no group. *)
Theorem nan_only_without_groups df a :
  analyze_frame lex df = Ok a →
  (∀ k s, max_values a !! k = Some s → notna s = true)
  ∧ (∀ k m, abs_max_values a !! k = Some m → notna m = true)
  ∧ (mean_of_abs_maxes a = NaN ↔ max_values a = ∅).
Proof.
  intros Ha. apply analyze_frame_Ok in Ha as (tag & _ & _ & ->).
  set (G := trial_groups (valid_frame lex tag df)).
  assert (Hgroup : ∀ k, is_Some (max_values (summarize G) !! k)
                        ∨ is_Some (abs_max_values (summarize G) !! k) →
                        ∃ g, G !! k = Some g).
  { intros k. unfold summarize, group_max. cbn [max_values abs_max_values].
    rewrite !lookup_fmap. destruct (G !! k) as [g|]; [eauto|].
    intros [[? ?]|[? ?]]; done. }
  split_and!.
  - intros k s Hs. destruct (Hgroup k) as [g Hg]; [left; eauto|].
    destruct (group_extrema lex tag df k g Hg) as (Hs' & _ & _ & _ & Hn & _).
    fold G in Hs'. congruence.
  - intros k m Hm. destruct (Hgroup k) as [g Hg]; [right; eauto|].
    destruct (group_extrema lex tag df k g Hg)
      as (_ & Hm' & _ & _ & _ & Hn & _).
    fold G in Hm'. congruence.
  - destruct (summarize_means lex tag df) as (_ & Hm' & Hsz & _).
    destruct (summarize_values lex tag df) as (_ & Habs).
    fold G in Hm', Hsz, Habs. split.
    + intros Hnan. apply map_size_empty_iff. rewrite Hsz.
      destruct (size G) as [|n] eqn:En; [done|]. exfalso.
      destruct (fsum_no_neg_inf _ Habs) as [H0 _].
      apply (fdiv_count_notna_S _ n) in H0. rewrite <- Hm', Hnan in H0. done.
    + intros Hempty. rewrite Hm'.
      apply map_size_empty_iff in Hempty. rewrite Hsz in Hempty.
      by rewrite Hempty.
Qed.

End Outcomes.

(** * Counts and single groups *)

Section Bounds.

Variable lex : string → float.

Lemma length_mjoin_ge {A} (L : list (list A)) :
  Forall (λ g, g ≠ []) L → (length L ≤ length (mjoin L))%nat.
Proof.
  induction 1 as [|g L Hg _ IH]; [done|].
  change (mjoin (g :: L)) with (g ++ mjoin L). rewrite length_app.
  destruct g; [done|]. simpl. lia.
Qed.

(** X10: there are at most as many groups as kept rows, and at most as
    many kept rows as rows. *)
Theorem groups_at_most_samples cols tag data a :
  head cols = Some tag →
  analyze_frame lex (frame cols data) = Ok a →
  (size (max_values a)
   ≤ length (filter (λ r, valid lex tag r = true) data))%nat
  ∧ (length (filter (λ r, valid lex tag r = true) data) ≤ length data)%nat.
Proof.
  intros Hh Ha. split; [|apply length_filter].
  apply analyze_frame_Ok in Ha as (tag' & Hh' & _ & ->).
  simpl in Hh'. assert (tag' = tag) as -> by congruence.
  set (G := trial_groups (valid_frame lex tag (frame cols data))).
  assert (Hsz : size (max_values (summarize G)) = size G)
    by apply map_size_fmap.
  rewrite Hsz, <- length_map_to_list.
  rewrite <- (length_fmap snd (map_to_list G)).
  etrans; [apply length_mjoin_ge|].
  { apply Forall_forall. intros g [k Hg]%groups_elem.
    by apply group_rows_Some in Hg as [_ ?]. }
  unfold G. rewrite trial_groups_partition, length_fmap.
  rewrite <- (frame_rows_snd cols data) at 2.
  rewrite (filter_fmap snd), length_fmap.
  rewrite <- (list_filter_filter_l
    (λ ir : nat * row, valid lex tag ir.2 = true ∧ has_key ir.2 = true)
    (λ ir : nat * row, valid lex tag ir.2 = true)) by tauto.
  apply length_filter.
Qed.

(** X13: the tag column is found by its position and the other columns by
    their names: two headers with the same first label and the same set of
    labels give the same analysis of the same rows. *)
Theorem columns_found_by_name cols cols' data :
  head cols = head cols' →
  (∀ c, c ∈ cols ↔ c ∈ cols') →
  analyze_frame lex (frame cols data) = analyze_frame lex (frame cols' data).
Proof.
  intros Hh Hsame. rewrite !analyze_frame_eq. simpl.
  destruct cols as [|tag cols], cols' as [|tag' cols']; try done.
  injection Hh as <-.
  repeat case_decide; try reflexivity;
    exfalso;
    match goal with
    | Hn : ?c ∉ _ |- _ => apply Hn; apply Hsame; assumption
    end.
Qed.

End Bounds.

(** * The name of the report file *)

Lemma prefix_app_same (a r : string) : String.prefix a (a +:+ r) = true.
Proof.
  induction a as [|c a IH]; simpl; [by destruct r|].
  by destruct (ascii_dec c c).
Qed.

Lemma replace_from_pass (a : string) old new r :
  replace_from (String.length a) old new (a +:+ r) = replace_from 0 old new r.
Proof. induction a as [|c a IH]; [done|]. simpl. exact IH. Qed.

(** An occurrence at the front is replaced, and the scan goes on behind
    it. *)
Lemma replace_front c (old new r : string) :
  replace (String c old) new (String c old +:+ r)
  = new +:+ replace (String c old) new r.
Proof.
  unfold replace.
  change (String c old +:+ r) with (String c (old +:+ r)).
  cbn [replace_from]. change (String c (old +:+ r)) with (String c old +:+ r).
  rewrite prefix_app_same. f_equal. cbn [String.length].
  rewrite Nat.sub_1_r. cbn [Nat.pred]. apply replace_from_pass.
Qed.

(** A stretch without a dot is copied when the pattern starts with a
    dot. *)
Lemma replace_dotless (old new stem r : string) :
  dotless stem = true →
  replace (String "." old) new (stem +:+ r)
  = stem +:+ replace (String "." old) new r.
Proof.
  unfold replace. induction stem as [|c stem IH]; [done|].
  cbn [dotless]. intros [Hc Hs]%andb_true_iff.
  change (String c stem +:+ r) with (String c (stem +:+ r)).
  cbn [replace_from String.prefix].
  destruct (ascii_dec "." c) as [<-|_]; [done|].
  change (String c stem +:+ replace_from 0 (String "." old) new r)
    with (String c (stem +:+ replace_from 0 (String "." old) new r)).
  f_equal. by apply IH.
Qed.

(** Without an occurrence, nothing is replaced. *)
Lemma replace_absent (old new s : string) :
  occurs old s = false → replace old new s = s.
Proof.
  unfold replace. induction s as [|c s IH]; [done|].
  cbn [occurs]. intros [Hp Ho]%orb_false_iff.
  cbn [replace_from]. rewrite Hp. f_equal. by apply IH.
Qed.

(** X11: the report is named after the table. For a name that starts with
    a stretch without a dot followed by [.CSV] or by [.csv], that extension
    becomes [_analysis.txt] and whatever follows is treated in the same
    way; in particular [stem.CSV] and [stem.csv] both give
    [stem_analysis.txt]. *)
Theorem output_filename_of_csv (stem rest : string) :
  dotless stem = true →
  output_filename (stem +:+ ".CSV" +:+ rest)
  = stem +:+ "_analysis.txt" +:+ output_filename rest
  ∧ output_filename (stem +:+ ".csv" +:+ rest)
    = stem +:+ "_analysis.txt" +:+ output_filename rest
  ∧ output_filename (stem +:+ ".CSV") = stem +:+ "_analysis.txt"
  ∧ output_filename (stem +:+ ".csv") = stem +:+ "_analysis.txt".
Proof.
  intros Hstem.
  assert (Hupper : ∀ r, output_filename (stem +:+ ".CSV" +:+ r)
                        = stem +:+ "_analysis.txt" +:+ output_filename r).
  { intros r. unfold output_filename.
    rewrite (replace_dotless "CSV" _ stem _ Hstem).
    rewrite (replace_front "." "CSV").
    rewrite (replace_dotless "csv" _ stem _ Hstem).
    reflexivity. }
  assert (Hlower : ∀ r, output_filename (stem +:+ ".csv" +:+ r)
                        = stem +:+ "_analysis.txt" +:+ output_filename r).
  { intros r. unfold output_filename.
    rewrite (replace_dotless "CSV" _ stem _ Hstem).
    change (replace ".CSV" "_analysis.txt" (".csv" +:+ r))
      with (".csv" +:+ replace ".CSV" "_analysis.txt" r).
    rewrite (replace_dotless "csv" _ stem _ Hstem).
    by rewrite (replace_front "." "csv"). }
  split_and!.
  - apply Hupper.
  - apply Hlower.
  - apply (Hupper "").
  - apply (Hlower "").
Qed.

(** X12: a name in which neither [.CSV] nor [.csv] occurs is left as it
    is, so that the report gets the name of the table itself. *)
Theorem output_filename_unchanged (base : string) :
  occurs ".CSV" base = false → occurs ".csv" base = false →
  output_filename base = base.
Proof.
  intros Hupper Hlower. unfold output_filename.
  rewrite (replace_absent ".CSV" _ base Hupper).
  by apply replace_absent.
Qed.

(** * Further instances *)

(** X1 at the scenario with two different sets of notes and of
    [AbsValueG] cells. *)
Lemma only_four_columns_read_witness :
  analyze_frame decimal (frame wide_header (annotate "day 1" 0 <$> scenario))
  = analyze_frame decimal
      (frame wide_header (annotate "day 2" 99 <$> scenario)).
Proof.
  apply (only_four_columns_read decimal wide_header "Tag").
  - reflexivity.
  - unfold scenario. rewrite !fmap_cons.
    repeat (constructor; [split_and!; reflexivity|]).
    constructor.
Defined.


(** X8 at three groups without a negative sample. *)
Lemma nonnegative_samples_coincide_witness :
  abs_max_values (analysed three_groups) = max_values (analysed three_groups)
  ∧ mean_of_abs_maxes (analysed three_groups)
    = mean_of_maxes (analysed three_groups).
Proof.
  apply (nonnegative_samples_coincide decimal header "Tag" three_groups).
  - reflexivity.
  - reflexivity.
  - intros r Hr _. unfold three_groups in Hr. rewrite !elem_of_cons in Hr.
    destruct Hr as [->|[->|[->|[->|Hr]]]]; try reflexivity.
    by apply elem_of_nil in Hr.
Defined.

(** X9 at the scenario. *)
Lemma nan_only_without_groups_witness :
  (∀ k s, max_values (analysed scenario) !! k = Some s → notna s = true)
  ∧ (∀ k m, abs_max_values (analysed scenario) !! k = Some m →
            notna m = true)
  ∧ (mean_of_abs_maxes (analysed scenario) = NaN
     ↔ max_values (analysed scenario) = ∅).
Proof.
  apply (nan_only_without_groups decimal (frame header scenario)).
  reflexivity.
Defined.

(** X10 at the scenario: two groups, four kept rows, five rows. *)
Lemma groups_at_most_samples_witness :
  (size (max_values (analysed scenario))
   ≤ length (filter (λ r, valid decimal "Tag" r = true) scenario))%nat
  ∧ (length (filter (λ r, valid decimal "Tag" r = true) scenario)
     ≤ length scenario)%nat.
Proof.
  apply (groups_at_most_samples decimal header "Tag" scenario).
  - reflexivity.
  - reflexivity.
Defined.

(** X11 at the name of the configured table. *)
Lemma output_filename_of_csv_witness :
  output_filename "Animal27_October24.CSV" = "Animal27_October24_analysis.txt"
  ∧ output_filename "Animal27_October24.csv.CSV"
    = "Animal27_October24_analysis.txt_analysis.txt".
Proof.
  destruct (output_filename_of_csv "Animal27_October24" ".CSV" eq_refl)
    as (_ & Hlower & Hupper & _).
  split; [exact Hupper|exact Hlower].
Defined.

(** X12 at a name with another spelling of the extension. *)
Lemma output_filename_unchanged_witness :
  output_filename "Animal27_October24.Csv" = "Animal27_October24.Csv".
Proof.
  apply output_filename_unchanged; reflexivity.
Defined.

(** X13 at the header of the scenario with its later columns reordered. *)
Lemma columns_found_by_name_witness :
  analyze_frame decimal (frame header scenario)
  = analyze_frame decimal
      (frame ["Tag"; "ValueG"; "TrialNo"; "Trial"]%string scenario).
Proof.
  apply (columns_found_by_name decimal header
           ["Tag"; "ValueG"; "TrialNo"; "Trial"]%string scenario).
  - reflexivity.
  - intros c. unfold header. rewrite !elem_of_cons. tauto.
Defined.
